(** * Permission resolution of the chat backend (app/helpers/permissions.py)

    A shallow embedding of the permission catalog, the overwrite resolution
    algorithm [_calc_final_permissions], the resolver [fetch_user_permissions]
    and the gate [check_request_permissions], with the properties the
    specification states about them.

    Conventions of the embedding:
    - a Python [str] is the [string] of its UTF-8 bytes (comparing two such
      strings byte by byte orders them as Python orders the texts, by code
      point); an [Optional[str]] is an [option string]; Python truthiness
      of such a value is [truthy] (neither [None] nor the empty string);
    - a cache or storage record (a Redis hash, a Python [dict] of strings) is
      a [gmap string string];
    - a Python [set] of permission strings is a [gset string];
    - the [Dict[str, List[str]]] of a user's roles is iterated in insertion
      order, so it is an association list; overwrite maps are only ever
      looked up, so they are a [gmap];
    - a raised exception is the [Err] outcome of a state-and-error monad over
      the cache and the durable storage. *)

From Stdlib Require Import Strings.Ascii.
From stdpp Require Import base option list sorting strings gmap fin_maps fin_sets.

Open Scope string_scope.

#[local] Set Warnings "-clear-no-such-hyp".

(** ** Python values *)

Abbreviation record := (gmap string string).
Abbreviation overwrites := (gmap string (list string)).
Abbreviation roles := (list (string * list string)).

(** [bool(x)] for an [Optional[str]]: [None] and the empty string are falsy. *)
Definition truthy (x : option string) : bool :=
  match x with
  | Some s => negb (bool_decide (s = ""))
  | None => false
  end.

(** [bool(d)] for a [dict]: only the empty one is falsy. *)
Definition nonempty (d : record) : bool := negb (bool_decide (d = ∅)).

(** [bool(d)] for an [Optional[dict]]. *)
Definition truthy_record (d : option record) : bool :=
  match d with
  | Some r => nonempty r
  | None => false
  end.

(** [str(x)] inside an f-string: [None] prints as the word None. *)
Definition py_str (x : option string) : string := default "None" x.

(** [s.split(",")]: the fields between separators, never an empty list. *)
Fixpoint split_go (sep : Ascii.ascii) (cur : string) (s : string) : list string :=
  match s with
  | EmptyString => [String.rev cur]
  | String c s' =>
      if bool_decide (c = sep) then String.rev cur :: split_go sep "" s'
      else split_go sep (String c cur) s'
  end.

Definition split (sep : Ascii.ascii) (s : string) : list string := split_go sep "" s.

Definition comma : Ascii.ascii := Ascii.ascii_of_nat 44.

(** [sorted(list(s))] on a set of strings. *)
Definition sorted (s : gset string) : list string :=
  merge_sort String.le (elements s).

(** ** The permission catalog *)

Module Permission.
Definition MESSAGES_CREATE := "messages.create".
Definition MESSAGES_LIST := "messages.list".
Definition CHANNELS_CREATE := "channels.create".
Definition CHANNELS_VIEW := "channels.view".
Definition CHANNELS_INVITE := "channels.invite".
Definition CHANNELS_JOIN := "channels.join".
Definition CHANNELS_PERMISSIONS_MANAGE := "channels.permissions.manage".
Definition CHANNELS_KICK := "channels.kick".
Definition CHANNELS_DELETE := "channels.delete".
Definition CHANNELS_MEMBERS_LIST := "channels.members.list".
Definition MEMBERS_KICK := "members.kick".
Definition ROLES_LIST := "roles.list".
Definition ROLES_CREATE := "roles.create".

(** [[p.value for p in Permission]], in declaration order. *)
Definition values : list string :=
  [ MESSAGES_CREATE; MESSAGES_LIST;
    CHANNELS_CREATE; CHANNELS_VIEW; CHANNELS_INVITE; CHANNELS_JOIN;
    CHANNELS_PERMISSIONS_MANAGE; CHANNELS_KICK; CHANNELS_DELETE;
    CHANNELS_MEMBERS_LIST;
    MEMBERS_KICK;
    ROLES_LIST; ROLES_CREATE ].
End Permission.

Definition SERVER_OWNER_PERMISSIONS : list string := Permission.values.
Definition CHANNEL_OWNER_PERMISSIONS : list string := Permission.values.

Definition DEFAULT_ROLE_PERMISSIONS : list string :=
  [ Permission.MESSAGES_LIST; Permission.MESSAGES_CREATE ].

Definition DEFAULT_DM_MEMBER_PERMISSIONS : list string :=
  [ Permission.CHANNELS_VIEW; Permission.MESSAGES_LIST;
    Permission.MESSAGES_CREATE; Permission.CHANNELS_MEMBERS_LIST ].

Definition DEFAULT_TOPIC_MEMBER_PERMISSIONS : list string :=
  [ Permission.CHANNELS_VIEW; Permission.MESSAGES_LIST;
    Permission.MESSAGES_CREATE; Permission.CHANNELS_MEMBERS_LIST ].

Definition DEFAULT_USER_PERMISSIONS : list string := [ Permission.CHANNELS_CREATE ].

(** ** The overwrite resolution algorithm *)

(** [set(l)] *)
Definition set_of (l : list string) : gset string := list_to_set l.

(** One turn of the loop of [_calc_final_permissions] (lines 150-161): the
    body run on the binding [(role_id, role_permissions)] with the
    accumulator [permissions]. *)
Definition calc_step (section_overwrites channel_overwrites : overwrites)
    (permissions : gset string) (binding : string * list string) : gset string :=
  let '(role_id, role_permissions) := binding in
  match channel_overwrites !! role_id with
  | Some c_permissions => permissions ∪ set_of c_permissions
  | None =>
      match section_overwrites !! role_id with
      | Some s_permissions => permissions ∪ set_of s_permissions
      | None => permissions ∪ set_of role_permissions
      end
  end.

Definition _calc_final_permissions (user_roles : roles)
    (section_overwrites channel_overwrites : overwrites) : gset string :=
  let permissions :=
    foldl (calc_step section_overwrites channel_overwrites) ∅ user_roles in
  permissions ∪ set_of (default [] (channel_overwrites !! "@public")).

(** The specification's wording of the algorithm, for comparison with the
    code: the single tier that speaks for a role-id ... *)
Definition tier_of (section_overwrites channel_overwrites : overwrites)
    (role_id : string) (role_default : list string) : list string :=
  match channel_overwrites !! role_id, section_overwrites !! role_id with
  | Some c, _ => c
  | None, Some s => s
  | None, None => role_default
  end.

(** ... and the union of those tiers over the roles held, plus the channel
    overwrite of the reserved role-id. *)
Definition union_of_tiers (user_roles : roles)
    (section_overwrites channel_overwrites : overwrites) : gset string :=
  ⋃ ((λ b, set_of (tier_of section_overwrites channel_overwrites b.1 b.2)) <$> user_roles)
  ∪ set_of (default [] (channel_overwrites !! "@public")).

(** ** Exceptions and the resolver's monad *)

(** The three ways the code builds an [APIPermissionError]. *)
Inductive permission_error_args :=
  | message (text : string)
  | unknown_channel_type (channel : record)
  | needed_vs_actual (needed_permissions user_permissions : list string).

Inductive exn :=
  | HTTPException (status_code : nat) (detail : string)
  | APIPermissionError (args : permission_error_args)
  | AttributeError
  | TypeError
  | JSONDecodeError.

(** The class of an exception as the caller sees it: [HTTPException] with
    status 404 is the not-found failure, [APIPermissionError] is answered
    with 403 by [api_permissions_error_handler]. *)
Definition is_not_found (e : exn) : bool :=
  match e with
  | HTTPException 404 _ => true
  | _ => false
  end.

Definition is_forbidden (e : exn) : bool :=
  match e with
  | APIPermissionError _ => true
  | _ => false
  end.

Inductive result (A : Type) :=
  | Ok (a : A)
  | Err (e : exn).
Arguments Ok {A} a.
Arguments Err {A} e.

(** A durable-storage round trip, as issued by the fetch-and-cache helpers. *)
Inductive db_read :=
  | ReadChannel (channel_id : string)
  | ReadServer (server_id : string)
  | ReadUser (user_id : string) (server_id : option string)
  | ReadSection (section_id : option string) (channel_id : string).

(** The cache (Redis: key to hash) and the durable storage the resolver reads
    through it. [reads] is not program state: it logs the calls of the
    fetch-and-cache helpers, most recent first, so that statements about
    which durable reads a call issues can be made. *)
Record World := {
  cache : gmap string record;
  channels : gmap string record;
  servers : gmap string record;
  sections : gmap string record;
  users : gmap (string * string) record;
  reads : list db_read;
}.

Definition M (A : Type) : Type := World → result A * World.

Definition raise {A} (e : exn) : M A := λ w, (Err e, w).
Definition lift {A} (r : result A) : M A := λ w, (r, w).

#[export] Instance M_ret : MRet M := λ A a w, (Ok a, w).
#[export] Instance M_bind : MBind M := λ A B k m w,
  match m w with
  | (Ok a, w') => k a w'
  | (Err e, w') => (Err e, w')
  end.

(** A [return] in the middle of the function, or falling through to the
    statements after the block. *)
Inductive flow (A B : Type) :=
  | Return (a : A)
  | Continue (b : B).
Arguments Return {A B} a.
Arguments Continue {A B} b.

(** ** The entity cache gateway *)

Definition HGETALL (w : World) (key : string) : record := default ∅ (cache w !! key).
Definition HGET (w : World) (key field : string) : option string := cache w !! key ≫= (.!! field).

Definition channel_key (channel_id : string) : string := "channel:" +:+ channel_id.
Definition server_key (server_id : string) : string := "server:" +:+ server_id.
Definition section_key (section_id : string) : string := "section:" +:+ section_id.
Definition user_key (user_id : string) : string := "user:" +:+ user_id.

Definition populate (key : string) (r : record) (w : World) : World :=
  {| cache := <[key := r]> (cache w); channels := channels w; servers := servers w;
     sections := sections w; users := users w; reads := reads w |}.

Definition log_read (q : db_read) (w : World) : World :=
  {| cache := cache w; channels := channels w; servers := servers w;
     sections := sections w; users := users w; reads := q :: reads w |}.

(** Modelled from the spec: [fetch_and_cache_channel] of app/helpers/channels.py
    is not among the sources. On a miss the authoritative record is read
    from durable storage and the cache is populated before it is returned; a
    truly absent id gives the not-found indicator ([None]). *)
Definition fetch_and_cache_channel (channel_id : string) : M (option record) :=
  λ w, let w := log_read (ReadChannel channel_id) w in
       match channels w !! channel_id with
       | Some r => (Ok (Some r), populate (channel_key channel_id) r w)
       | None => (Ok None, w)
       end.

(** Modelled from the spec: [fetch_and_cache_server] of app/helpers/servers.py
    is not among the sources. Same read-through; not found is the empty
    record, not an error. *)
Definition fetch_and_cache_server (server_id : string) : M record :=
  λ w, let w := log_read (ReadServer server_id) w in
       match servers w !! server_id with
       | Some r => (Ok r, populate (server_key server_id) r w)
       | None => (Ok ∅, w)
       end.

(** Modelled from the spec: [fetch_and_cache_section] of app/helpers/sections.py
    is not among the sources. Same read-through; not found (also for an id
    that is [None]) is the empty record. *)
Definition fetch_and_cache_section (section_id : option string) (channel_id : string) : M record :=
  λ w, let w := log_read (ReadSection section_id channel_id) w in
       match section_id ≫= (sections w !!.) with
       | Some r => (Ok r, populate (section_key (py_str section_id)) r w)
       | None => (Ok ∅, w)
       end.

(** Modelled from the spec: [fetch_and_cache_user] of app/helpers/users.py is
    not among the sources. The user's record for one server, read through to
    the cache; not found is the empty record. *)
Definition fetch_and_cache_user (user_id : string) (server_id : option string) : M record :=
  λ w, let w := log_read (ReadUser user_id server_id) w in
       match server_id ≫= (λ s, users w !! (user_id, s)) with
       | Some r => (Ok r, populate (user_key user_id) r w)
       | None => (Ok ∅, w)
       end.

(** What the engine consumes from outside the sources at hand: [json.loads]
    restricted to the shape the resolver declares for overwrite maps
    ([Dict[str, List[str]]]), of which only the decoding of the empty object
    is assumed; and the role deriver [get_user_roles_permissions] of
    app/helpers/users.py, about which nothing is assumed. [None] stands for
    a text that does not decode and also for one that decodes to a value of
    another shape: the code fails on the latter too, but later, inside the
    algorithm, and with another exception, so no statement below tells the
    two apart. *)
Class Collaborators := {
  json_loads : string → option overwrites;
  get_user_roles_permissions : record → record → roles;
  json_loads_empty_object : json_loads "{}" = Some ∅;
}.

(** [fetch_cached_permissions_data]: the four reads of the Lua script, on
    one snapshot of the cache. *)
Definition fetch_cached_permissions_data (channel_id : option string) (user_id : string)
    : M (record * record * record * record) :=
  λ w,
    let key1 := "channel:" +:+ py_str channel_id in
    let key2 := if bool_decide (user_id ≠ "") then "user:" +:+ user_id else user_id in
    let channel_data := HGETALL w key1 in
    let user_data := HGETALL w key2 in
    let server_data :=
      match HGET w key1 "server" with
      | Some server_id => HGETALL w ("server:" +:+ server_id)
      | None => ∅
      end in
    let section_data :=
      match HGET w key1 "section" with
      | Some section_id => HGETALL w ("section:" +:+ section_id)
      | None => ∅
      end in
    (Ok (channel_data, user_data, server_data, section_data), w).

(** ** Requests *)

(** [bool(v)] for the values a decoded JSON document holds, whatever type
    [V] stands for them. *)
Class PyBool (V : Type) := py_bool : V → bool.

#[export] Instance str_bool : PyBool string := λ s, negb (bool_decide (s = "")).

(** What the extractors read of a request: the URL path and the body, which
    either does not decode as JSON, or is a JSON object with values in [V],
    or is some other JSON value. *)
Inductive Body (V : Type) :=
  | Undecodable
  | JsonObject (fields : gmap string V)
  | JsonOther.
Arguments Undecodable {V}.
Arguments JsonObject {V} fields.
Arguments JsonOther {V}.

Record RequestOf (V : Type) := { path : string; body : Body V }.
Arguments path {V} r.
Arguments body {V} r.

(** The gate hands the ids it extracts to the resolver, which declares them
    as strings: a request whose id fields are strings. *)
Abbreviation Request := (RequestOf string).

Record User := { pk : string }.

(** [not d] for a [dict]. *)
Definition empty_dict {V} (d : gmap string V) : bool :=
  match map_to_list d with
  | [] => true
  | _ :: _ => false
  end.

(** The loop of [_fetch_fields_from_request_body]: a missing field reads as
    [None], which is falsy like a falsy value. *)
Fixpoint first_truthy {V} `{PyBool V} (fields : list string) (body : gmap string V)
    : option V :=
  match fields with
  | [] => None
  | field :: fields =>
      match body !! field with
      | Some value => if py_bool value then Some value else first_truthy fields body
      | None => first_truthy fields body
      end
  end.

Definition _fetch_fields_from_request_body {V} `{PyBool V} (fields : list string)
    (request : RequestOf V) : option V :=
  match body request with
  | Undecodable => None
  | JsonOther => None
  | JsonObject b => if empty_dict b then None else first_truthy fields b
  end.

Definition newline : Ascii.ascii := Ascii.ascii_of_nat 10.

Fixpoint drop_prefix (prefix s : string) : option string :=
  match prefix, s with
  | EmptyString, _ => Some s
  | String a prefix, String b s => if bool_decide (a = b) then drop_prefix prefix s else None
  | String _ _, EmptyString => None
  end.

Fixpoint no_newline (s : string) : bool :=
  match s with
  | EmptyString => true
  | String c s => negb (bool_decide (c = newline)) && no_newline s
  end.

(** A byte of the form 10xxxxxx: in UTF-8 it continues the character begun
    by an earlier byte. *)
Definition is_continuation (c : Ascii.ascii) : bool :=
  match c with
  | Ascii.Ascii _ _ _ _ _ _ b6 b7 => b7 && negb b6
  end.

(** [len(s)]: the number of characters (code points) of the text. *)
Fixpoint code_points (s : string) : nat :=
  match s with
  | EmptyString => 0
  | String c s => (if is_continuation c then 0 else 1) + code_points s
  end.

(** The text does not begin in the middle of a character. *)
Definition at_boundary (s : string) : bool :=
  match s with
  | EmptyString => true
  | String c _ => negb (is_continuation c)
  end.

(** [.{n}] at the start of [s]: its first [n] characters, each with its
    continuation bytes, if it has that many. *)
Fixpoint first_code_points (n : nat) (s : string) : option string :=
  match s with
  | EmptyString => match n with 0 => Some "" | S _ => None end
  | String c s' =>
      if is_continuation c then String c <$> first_code_points n s'
      else match n with
           | 0 => Some ""
           | S n' => String c <$> first_code_points n' s'
           end
  end.

(** [re.findall(r"^<prefix>(.{24})/?", path)], first match if any: the 24
    characters after the prefix, none of them a newline. *)
Definition id_in_path (prefix path : string) : option string :=
  rest ← drop_prefix prefix path;
  id ← first_code_points 24 rest;
  if no_newline id then Some id else None.

Definition _fetch_channel_from_request (request : Request) : option string :=
  match id_in_path "/channels/" (path request) with
  | Some id => Some id
  | None =>
      let value := _fetch_fields_from_request_body ["channel"; "channel_id"] request in
      if truthy value then value else None
  end.

Definition _fetch_server_from_request (request : Request) : option string :=
  match id_in_path "/servers/" (path request) with
  | Some id => Some id
  | None =>
      let value := _fetch_fields_from_request_body ["server"; "server_id"] request in
      if truthy value then value else None
  end.

(** ** The resolver *)

Section resolver.
Context {env : Collaborators}.

(** [x or ""] *)
Definition or_empty (x : option string) : string :=
  if truthy x then default "" x else "".

(** [channel.get("members", []).split(",")]: the default is a list, which
    has no [split]. *)
Definition members_of (channel : record) : M (list string) :=
  match channel !! "members" with
  | Some members => mret (split comma members)
  | None => raise AttributeError
  end.

(** The head of the block under [if channel_id:] (lines 217-221): the
    record is reloaded when the cached one is empty or has no kind; none
    after that is the 404. *)
Definition load_channel (channel_id : string) (channel : record) : M record :=
  channel ← (if negb (nonempty channel) || bool_decide (channel !! "kind" = None)
             then fetch_and_cache_channel channel_id
             else mret (Some channel));
  if negb (truthy_record channel) then
    raise (HTTPException 404 "channel not found")
  else mret (default ∅ channel).

(** The [if]/[elif] chain on the channel's kind (lines 223-237). It either
    returns, or leaves [server_id] and [user_roles] to the statements after
    it. *)
Definition by_kind (server_id user_id : option string) (channel : record)
    : M (flow (list string) (option string * roles)) :=
  if bool_decide (channel !! "kind" = Some "dm") then
    members ← members_of channel;
    if negb (truthy user_id) || negb (bool_decide (or_empty user_id ∈ members)) then
      raise (APIPermissionError (message "user is not a member of DM channel"))
    else mret (Return DEFAULT_DM_MEMBER_PERMISSIONS)
  else if bool_decide (channel !! "kind" = Some "topic") then
    if truthy user_id && bool_decide (channel !! "owner" = user_id) then
      mret (Return CHANNEL_OWNER_PERMISSIONS)
    else
      members ← members_of channel;
      if truthy user_id && bool_decide (or_empty user_id ∈ members) then
        mret (Continue (server_id, [("@members", DEFAULT_TOPIC_MEMBER_PERMISSIONS)]))
      else mret (Continue (server_id, []))
  else if bool_decide (channel !! "kind" = Some "server") then
    mret (Continue (channel !! "server", []))
  else
    raise (APIPermissionError (unknown_channel_type channel)).

(** The whole block under [if channel_id:]. *)
Definition channel_context (channel_id server_id user_id : option string) (channel : record)
    : M (flow (list string) (record * option string * roles)) :=
  if truthy channel_id then
    channel ← load_channel (or_empty channel_id) channel;
    next ← by_kind server_id user_id channel;
    match next with
    | Return permissions => mret (Return permissions)
    | Continue (server_id, user_roles) => mret (Continue (channel, server_id, user_roles))
    end
  else mret (Continue (channel, server_id, [])).

(** The block under [if server and user_id:] (lines 245-249). *)
Definition roles_in_server (server_id user_id : option string) (user server : record)
    (user_roles : roles) : M roles :=
  if nonempty server && truthy user_id then
    user ← (if negb (nonempty user)
               || negb (truthy (user !! (py_str server_id +:+ ".roles")))
            then fetch_and_cache_user (or_empty user_id) server_id
            else mret user);
    mret (get_user_roles_permissions user server)
  else mret user_roles.

(** The block under [if server_id and not server:] (lines 239-243),
    followed by the one above. The owner test sits inside the first block. *)
Definition server_context (server_id user_id : option string) (user server : record)
    (user_roles : roles) : M (flow (list string) roles) :=
  if truthy server_id && negb (nonempty server) then
    server ← fetch_and_cache_server (or_empty server_id);
    if truthy user_id && bool_decide (server !! "owner" = user_id) then
      mret (Return SERVER_OWNER_PERMISSIONS)
    else
      user_roles ← roles_in_server server_id user_id user server user_roles;
      mret (Continue user_roles)
  else
    user_roles ← roles_in_server server_id user_id user server user_roles;
    mret (Continue user_roles).

(** [json.loads(x)] for [x] a string or, when the field is missing and the
    default is a [dict], not a string. *)
Definition loads (x : option string) : result overwrites :=
  match x with
  | Some s =>
      match json_loads s with
      | Some o => Ok o
      | None => Err JSONDecodeError
      end
  | None => Err TypeError
  end.

(** [json.loads(channel.get("permissions", "{}"))] *)
Definition channel_overwrites_of (channel : record) : result overwrites :=
  loads (Some (default "{}" (channel !! "permissions"))).

(** [json.loads(section.get("permissions", {}))] under [if section:], the
    empty map otherwise. *)
Definition section_overwrites_of (section : record) : result overwrites :=
  if nonempty section then loads (section !! "permissions") else Ok ∅.

(** From [section_overwrites = {}] to the call of the algorithm (lines
    251-259): the pair (section overwrites, channel overwrites). *)
Definition load_overwrites (channel_id : option string) (channel section : record)
    : M (overwrites * overwrites) :=
  channel_overwrites ← lift (channel_overwrites_of channel);
  section ← (if negb (nonempty section) && truthy channel_id then
               let section_id := channel !! "section" in
               if bool_decide (section_id ≠ Some "") then
                 fetch_and_cache_section section_id (or_empty channel_id)
               else mret section
             else mret section);
  section_overwrites ← lift (section_overwrites_of section);
  mret (section_overwrites, channel_overwrites).

(** The statements after the block under [if channel_id:], to the end of
    the function. *)
Definition roles_and_overwrites (channel_id server_id user_id : option string)
    (channel user server section : record) (user_roles : roles) : M (list string) :=
  in_server ← server_context server_id user_id user server user_roles;
  match in_server with
  | Return permissions => mret permissions
  | Continue user_roles =>
      '(section_overwrites, channel_overwrites) ←
        load_overwrites channel_id channel section;
      mret (sorted (_calc_final_permissions user_roles section_overwrites
                      channel_overwrites))
  end.

Definition fetch_user_permissions (channel_id server_id user_id : option string)
    : M (list string) :=
  if negb (truthy channel_id) && negb (truthy server_id) then
    mret DEFAULT_USER_PERMISSIONS
  else
    '(channel, user, server, section) ←
      fetch_cached_permissions_data channel_id (or_empty user_id);
    by_kind ← channel_context channel_id server_id user_id channel;
    match by_kind with
    | Return permissions => mret permissions
    | Continue (channel, server_id, user_roles) =>
        roles_and_overwrites channel_id server_id user_id channel user server section
          user_roles
    end.

(** The gate (lines 270-278). *)
Definition check_request_permissions (request : Request) (permissions : list string)
    (current_user : option User) : M unit :=
  let channel_id := _fetch_channel_from_request request in
  let server_id := _fetch_server_from_request request in
  let user_id := pk <$> current_user in
  user_permissions ← fetch_user_permissions channel_id server_id user_id;
  if negb (forallb (λ req_permission, bool_decide (req_permission ∈ user_permissions))
             permissions)
  then raise (APIPermissionError (needed_vs_actual permissions user_permissions))
  else mret ().
End resolver.

(** ** What one call works on

    The records a call of the resolver for channel [channel_id] ends up
    using, read off the cache and the durable storage it starts from. *)

Definition cached_channel (w : World) (channel_id : string) : record :=
  HGETALL w (channel_key channel_id).

Definition cached_server (w : World) (channel_id : string) : record :=
  match HGET w (channel_key channel_id) "server" with
  | Some server_id => HGETALL w (server_key server_id)
  | None => ∅
  end.

Definition cached_section (w : World) (channel_id : string) : record :=
  match HGET w (channel_key channel_id) "section" with
  | Some section_id => HGETALL w (section_key section_id)
  | None => ∅
  end.

Definition cached_user (w : World) (user_id : string) : record :=
  HGETALL w (if bool_decide (user_id ≠ "") then user_key user_id else user_id).

(** The cached channel record is absent or lacks a kind. *)
Definition reload_needed (w : World) (channel_id : string) : bool :=
  negb (nonempty (cached_channel w channel_id))
  || bool_decide (cached_channel w channel_id !! "kind" = None).

(** The channel record the kind is read from: the cached one, or the durable
    one when a reload is needed. *)
Definition channel_in_use (w : World) (channel_id : string) : option record :=
  if reload_needed w channel_id then channels w !! channel_id
  else Some (cached_channel w channel_id).

(** The world once the channel record is loaded. *)
Definition after_load (w : World) (channel_id : string) : World :=
  if reload_needed w channel_id then (fetch_and_cache_channel channel_id w).2 else w.

(** The section record the section overwrites are read from. *)
Definition section_in_use (w : World) (channel_id : string) (channel : record) : record :=
  if nonempty (cached_section w channel_id) then cached_section w channel_id
  else if bool_decide (channel !! "section" ≠ Some "") then
    default ∅ (channel !! "section" ≫= (sections w !!.))
  else ∅.

(** [user_id] is present and listed in the channel's comma-separated members. *)
Definition listed (user_id : option string) (channel : record) : Prop :=
  ∃ u members, user_id = Some u ∧ u ≠ "" ∧ channel !! "members" = Some members
               ∧ u ∈ split comma members.

(** A computation that runs after the channel record is loaded leaves the
    durable channels and the cached channel records alone, only adds to the
    log of durable reads, and does not fail with the 404. *)
Definition after_load_safe {A} (m : M A) : Prop :=
  ∀ w,
    channels (m w).2 = channels w
    ∧ (∀ cid, cache (m w).2 !! channel_key cid = cache w !! channel_key cid)
    ∧ (∀ q, q ∈ reads w → q ∈ reads (m w).2)
    ∧ (∀ e, (m w).1 = Err e → is_not_found e = false).

(** ** A concrete set of collaborators

    Used to run the resolver on examples: a decoder for JSON objects whose
    values are arrays of strings (written without escape sequences), and a
    role deriver that answers with a fixed table. *)

Module Json.
Inductive token :=
  | LBRACE | RBRACE | LBRACK | RBRACK | COLON | COMMA
  | STR (s : string).

Definition dquote : Ascii.ascii := Ascii.ascii_of_nat 34.
Definition backslash : Ascii.ascii := Ascii.ascii_of_nat 92.

Definition punctuation (c : Ascii.ascii) : option token :=
  if bool_decide (c = "{"%char) then Some LBRACE
  else if bool_decide (c = "}"%char) then Some RBRACE
  else if bool_decide (c = "["%char) then Some LBRACK
  else if bool_decide (c = "]"%char) then Some RBRACK
  else if bool_decide (c = ":"%char) then Some COLON
  else if bool_decide (c = ","%char) then Some COMMA
  else None.

(** [lit] is the string literal being read, reversed, if one is open. *)
Fixpoint tokens (lit : option string) (s : string) : option (list token) :=
  match s with
  | EmptyString => match lit with None => Some [] | Some _ => None end
  | String c s' =>
      match lit with
      | Some cur =>
          if bool_decide (c = dquote) then (STR (String.rev cur) ::.) <$> tokens None s'
          else if bool_decide (c = backslash) then None
          else tokens (Some (String c cur)) s'
      | None =>
          if bool_decide (c = dquote) then tokens (Some "") s'
          else if Ascii.is_space c then tokens None s'
          else t ← punctuation c; (t ::.) <$> tokens None s'
      end
  end.

Inductive state :=
  | AtStart
  | KeyOrClose
  | Key
  | Colon (k : string)
  | Open (k : string)
  | ItemOrClose (k : string)
  | Item (k : string) (acc : list string)
  | AfterItem (k : string) (acc : list string)
  | AfterArray
  | Finished.

Definition step (st : state * overwrites) (t : token) : option (state * overwrites) :=
  let '(s, o) := st in
  match s, t with
  | AtStart, LBRACE => Some (KeyOrClose, o)
  | KeyOrClose, RBRACE => Some (Finished, o)
  | KeyOrClose, STR k => Some (Colon k, o)
  | Key, STR k => Some (Colon k, o)
  | Colon k, COLON => Some (Open k, o)
  | Open k, LBRACK => Some (ItemOrClose k, o)
  | ItemOrClose k, RBRACK => Some (AfterArray, <[k := []]> o)
  | ItemOrClose k, STR x => Some (AfterItem k [x], o)
  | Item k acc, STR x => Some (AfterItem k (x :: acc), o)
  | AfterItem k acc, COMMA => Some (Item k acc, o)
  | AfterItem k acc, RBRACK => Some (AfterArray, <[k := reverse acc]> o)
  | AfterArray, COMMA => Some (Key, o)
  | AfterArray, RBRACE => Some (Finished, o)
  | _, _ => None
  end.

Fixpoint run (st : state * overwrites) (ts : list token) : option overwrites :=
  match ts with
  | [] => match st.1 with Finished => Some st.2 | _ => None end
  | t :: ts => st ← step st t; run st ts
  end.

Definition loads (s : string) : option overwrites :=
  ts ← tokens None s; run (AtStart, ∅) ts.

(** A string literal of JSON: the text between double quotes. *)
Definition quoted (s : string) : string :=
  String dquote (s +:+ String dquote "").
End Json.

Definition granting (table : roles) : Collaborators := {|
  json_loads := Json.loads;
  get_user_roles_permissions := λ _ _, table;
  json_loads_empty_object := eq_refl;
|}.

(** Records are written as association lists. *)
Definition rec (fields : list (string * string)) : record := list_to_map fields.

Definition empty_world : World :=
  {| cache := ∅; channels := ∅; servers := ∅; sections := ∅; users := ∅; reads := [] |}.

Definition with_cache (entries : list (string * record)) (w : World) : World :=
  {| cache := list_to_map entries ∪ cache w; channels := channels w; servers := servers w;
     sections := sections w; users := users w; reads := reads w |}.

Definition with_channels (entries : list (string * record)) (w : World) : World :=
  {| cache := cache w; channels := list_to_map entries ∪ channels w; servers := servers w;
     sections := sections w; users := users w; reads := reads w |}.

Definition with_servers (entries : list (string * record)) (w : World) : World :=
  {| cache := cache w; channels := channels w; servers := list_to_map entries ∪ servers w;
     sections := sections w; users := users w; reads := reads w |}.

Definition with_sections (entries : list (string * record)) (w : World) : World :=
  {| cache := cache w; channels := channels w; servers := servers w;
     sections := list_to_map entries ∪ sections w; users := users w; reads := reads w |}.

(** ** Shapes of outcomes *)

(** Every value the computation returns satisfies [P]. *)
Definition returns {A} (P : A → Prop) (m : M A) : Prop :=
  ∀ w a, (m w).1 = Ok a → P a.

(** Every exception the computation raises satisfies [P]. *)
Definition fails_only {A} (P : exn → Prop) (m : M A) : Prop :=
  ∀ w e, (m w).1 = Err e → P e.

(** A failure of [json.loads]: a value that is not a string, or a string
    that does not decode. *)
Definition is_decode_failure (e : exn) : Prop := e = TypeError ∨ e = JSONDecodeError.

(** What a list returned by the resolver looks like: one of the constants
    of the catalog, in declaration order, or an ascending list. *)
Definition constant_or_ascending (permissions : list string) : Prop :=
  permissions = DEFAULT_USER_PERMISSIONS
  ∨ permissions = DEFAULT_DM_MEMBER_PERMISSIONS
  ∨ permissions = Permission.values
  ∨ StronglySorted String.le permissions.

(** [",".join(l)] *)
Definition join_commas (l : list string) : string := String.concat "," l.

(** [c in s] for a character. *)
Fixpoint has_char (c : Ascii.ascii) (s : string) : bool :=
  match s with
  | EmptyString => false
  | String c' s => bool_decide (c' = c) || has_char c s
  end.

(** ** Example worlds *)

(** A server owned by [u1] with one channel, known to durable storage only,
    and the same with the channel and the server also in the cache, as a
    first call leaves them. *)
Definition owned_server_cold : World :=
  with_channels [("c1", rec [("kind", "server"); ("server", "s1"); ("section", "")])]
    (with_servers [("s1", rec [("owner", "u1"); ("name", "home")])] empty_world).

Definition owned_server_warm : World :=
  with_cache [("channel:c1", rec [("kind", "server"); ("server", "s1"); ("section", "")]);
              ("server:s1", rec [("owner", "u1"); ("name", "home")])]
    owned_server_cold.

(** A topic channel owned by [u1], with members [u1] and [u2], no section,
    and a channel overwrite that gives ["@members"] nothing. *)
Definition muted_topic : record :=
  rec [("kind", "topic"); ("owner", "u1"); ("members", "u1,u2"); ("section", "");
       ("permissions", "{" +:+ Json.quoted "@members" +:+ ": []}")].

(** The same channel without the overwrite. *)
Definition plain_topic : record :=
  rec [("kind", "topic"); ("owner", "u1"); ("members", "u1,u2"); ("section", "")].

(** A server owned by somebody else, next to that channel. *)
Definition topic_beside_server : World :=
  with_channels [("c1", plain_topic)]
    (with_servers [("s1", rec [("owner", "u9")])] empty_world).

(** A cached topic channel record with neither a section nor a permissions
    field, and the same channel placed in section [s1], whose cached record
    has a name but no permissions field. *)
Definition bare_topic : record :=
  rec [("kind", "topic"); ("owner", "u1"); ("members", "u1,u2")].

Definition sectioned_world : World :=
  with_cache [("channel:c1", bare_topic);
              ("channel:c2", <["section" := "s1"]> bare_topic);
              ("section:s1", rec [("name", "general")])]
    empty_world.

(** A request on the messages of a cached dm channel. *)
Definition dm_request : Request :=
  {| path := "/channels/0123456789abcdef01234567/messages"; body := Undecodable |}.

Definition dm_world : World :=
  with_cache [("channel:0123456789abcdef01234567",
               rec [("kind", "dm"); ("members", "u1,u2")])]
    empty_world.

(** * Properties *)

(** ** The overwrite resolution algorithm *)

Lemma calc_step_tier so co acc b :
  calc_step so co acc b = acc ∪ set_of (tier_of so co b.1 b.2).
Proof.
  destruct b as [role_id role_permissions]; unfold calc_step, tier_of; simpl.
  destruct (co !! role_id); [done|]. by destruct (so !! role_id).
Qed.

Lemma foldl_calc_step so co (user_roles : roles) acc :
  foldl (calc_step so co) acc user_roles
  = acc ∪ ⋃ ((λ b, set_of (tier_of so co b.1 b.2)) <$> user_roles).
Proof.
  revert acc. induction user_roles as [|b l IH]; intros acc; simpl.
  - set_solver.
  - rewrite IH, calc_step_tier. set_solver.
Qed.

Lemma calc_final_permissions_unfold user_roles so co :
  _calc_final_permissions user_roles so co = union_of_tiers user_roles so co.
Proof.
  unfold _calc_final_permissions, union_of_tiers.
  rewrite foldl_calc_step. set_solver.
Qed.

Lemma elem_of_union_of_tiers user_roles so co p :
  p ∈ union_of_tiers user_roles so co ↔
    (∃ role_id role_default,
        (role_id, role_default) ∈ user_roles ∧ p ∈ tier_of so co role_id role_default)
    ∨ p ∈ default [] (co !! "@public").
Proof.
  unfold union_of_tiers, set_of.
  rewrite elem_of_union, elem_of_union_list, !elem_of_list_to_set.
  split; (intros [Hroles|Hpublic]; [left|by right]).
  - destruct Hroles as (X & HX & Hp).
    apply list_elem_of_fmap in HX as ([r d] & -> & Hb).
    exists r, d. by rewrite elem_of_list_to_set in Hp.
  - destruct Hroles as (r & d & Hb & Hp).
    exists (list_to_set (tier_of so co r d)). split.
    + apply list_elem_of_fmap. by exists (r, d).
    + by rewrite elem_of_list_to_set.
Qed.

(** C2. [_calc_final_permissions] returns exactly the union, over the
    bindings of the user's roles, of the one tier that speaks for the
    role-id (the channel overwrite if the role-id has one, else the section
    overwrite if it has one, else the role's default set), together with the
    channel overwrite of ["@public"]; so a permission is in the result iff
    one held role's tier or the ["@public"] channel overwrite has it, the
    ["@public"] channel overwrite is always contained in the result, and
    with no roles it is the whole result. *)
Theorem calc_final_permissions_union_of_tiers (user_roles : roles) (so co : overwrites) :
  _calc_final_permissions user_roles so co = union_of_tiers user_roles so co
  ∧ (∀ p, p ∈ _calc_final_permissions user_roles so co ↔
       (∃ role_id role_default,
           (role_id, role_default) ∈ user_roles
           ∧ p ∈ tier_of so co role_id role_default)
       ∨ p ∈ default [] (co !! "@public"))
  ∧ set_of (default [] (co !! "@public")) ⊆ _calc_final_permissions user_roles so co
  ∧ _calc_final_permissions [] so co = set_of (default [] (co !! "@public")).
Proof.
  split_and!.
  - apply calc_final_permissions_unfold.
  - intros p. rewrite calc_final_permissions_unfold. apply elem_of_union_of_tiers.
  - unfold _calc_final_permissions. set_solver.
  - unfold _calc_final_permissions. simpl. set_solver.
Qed.

(** C3. Two role maps with the same bindings in a different iteration order
    resolve to the same final set, whatever the section and channel
    overwrites; and a binding met twice contributes as if met once. *)
Theorem calc_final_permissions_order_irrelevant (user_roles user_roles' : roles)
    (so co : overwrites) :
  user_roles ≡ₚ user_roles' →
  _calc_final_permissions user_roles so co = _calc_final_permissions user_roles' so co
  ∧ ∀ b, _calc_final_permissions (b :: b :: user_roles) so co
         = _calc_final_permissions (b :: user_roles) so co.
Proof.
  intros Hperm. split.
  - rewrite !calc_final_permissions_unfold.
    apply set_eq. intros p. rewrite !elem_of_union_of_tiers.
    by setoid_rewrite Hperm.
  - intros b. rewrite !calc_final_permissions_unfold. unfold union_of_tiers. simpl.
    set_solver.
Qed.

(** Three roles, listed in two orders, under a section and a channel
    overwrite. *)
Lemma calc_final_permissions_order_irrelevant_witness :
  let r1 := ("admin", [Permission.CHANNELS_KICK]) in
  let r2 := ("member", DEFAULT_ROLE_PERMISSIONS) in
  let r3 := ("@members", DEFAULT_TOPIC_MEMBER_PERMISSIONS) in
  let so : overwrites := {[ "member" := [Permission.CHANNELS_VIEW] ]} in
  let co : overwrites := {[ "admin" := [] ; "@public" := [Permission.MESSAGES_LIST] ]} in
  [r1; r2; r3] ≡ₚ [r3; r1; r2]
  ∧ _calc_final_permissions [r1; r2; r3] so co = _calc_final_permissions [r3; r1; r2] so co.
Proof.
  assert (Hperm : [("admin", [Permission.CHANNELS_KICK]);
                   ("member", DEFAULT_ROLE_PERMISSIONS);
                   ("@members", DEFAULT_TOPIC_MEMBER_PERMISSIONS)]
                  ≡ₚ [("@members", DEFAULT_TOPIC_MEMBER_PERMISSIONS);
                      ("admin", [Permission.CHANNELS_KICK]);
                      ("member", DEFAULT_ROLE_PERMISSIONS)]).
  { symmetry. apply (Permutation_cons_append [_; _]). }
  split; [exact Hperm|].
  exact (proj1 (calc_final_permissions_order_irrelevant _ _ _ _ Hperm)).
Defined.

(** ** The resolver on a channel *)

#[local] Arguments truthy : simpl never.
#[local] Arguments truthy_record : simpl never.
#[local] Arguments nonempty : simpl never.
#[local] Arguments or_empty : simpl never.
#[local] Arguments fetch_cached_permissions_data : simpl never.
#[local] Arguments fetch_and_cache_channel : simpl never.
#[local] Arguments fetch_and_cache_server : simpl never.
#[local] Arguments fetch_and_cache_section : simpl never.
#[local] Arguments fetch_and_cache_user : simpl never.
#[local] Arguments load_channel : simpl never.
#[local] Arguments by_kind : simpl never.
#[local] Arguments channel_context : simpl never.
#[local] Arguments roles_in_server : simpl never.
#[local] Arguments server_context : simpl never.
#[local] Arguments load_overwrites : simpl never.
#[local] Arguments roles_and_overwrites : simpl never.
#[local] Arguments sorted : simpl never.
#[local] Arguments _calc_final_permissions : simpl never.

Ltac run := unfold mbind, mret, M_bind, M_ret, raise, lift; simpl.

Lemma bind_eq {A B} (m : M A) (k : A → M B) (w : World) :
  (m ≫= k) w = match m w with
               | (Ok a, w') => k a w'
               | (Err e, w') => (Err e, w')
               end.
Proof. reflexivity. Qed.

Lemma ret_eq {A} (a : A) (w : World) : (mret a : M A) w = (Ok a, w).
Proof. reflexivity. Qed.

Lemma lift_bind_eq {A B} (r : result A) (k : A → M B) (w : World) :
  (lift r ≫= k) w = match r with
                    | Ok a => k a w
                    | Err e => (Err e, w)
                    end.
Proof. by destruct r. Qed.

Lemma truthy_Some (s : string) : s ≠ "" → truthy (Some s) = true.
Proof. intros Hs. unfold truthy. by rewrite bool_decide_eq_false_2. Qed.

Lemma or_empty_Some (s : string) : or_empty (Some s) = s.
Proof. unfold or_empty, truthy. by case_bool_decide. Qed.

Lemma truthy_or_empty (x : option string) : truthy x = true → x = Some (or_empty x).
Proof. destruct x as [s|]; [|done]. intros _. by rewrite or_empty_Some. Qed.

Lemma truthy_record_Some (r : record) : r ≠ ∅ → truthy_record (Some r) = true.
Proof. intros Hr. unfold truthy_record, nonempty. by rewrite bool_decide_eq_false_2. Qed.

Lemma snapshot_of_channel (cid u : string) (w : World) :
  fetch_cached_permissions_data (Some cid) u w
  = (Ok (cached_channel w cid, cached_user w u,
         cached_server w cid, cached_section w cid), w).
Proof. reflexivity. Qed.

Lemma load_channel_in_use (cid : string) (w : World) (ch : record) :
  channel_in_use w cid = Some ch → ch ≠ ∅ →
  load_channel cid (cached_channel w cid) w = (Ok ch, after_load w cid).
Proof.
  unfold channel_in_use, after_load, load_channel, reload_needed.
  intros Hch Hne.
  destruct (negb (nonempty (cached_channel w cid))
            || bool_decide (cached_channel w cid !! "kind" = None)) eqn:Hreload.
  - run. unfold fetch_and_cache_channel. simpl. rewrite Hch.
    by rewrite truthy_record_Some.
  - run. injection Hch as <-. by rewrite truthy_record_Some.
Qed.

Lemma load_channel_not_found (cid : string) (w : World) :
  truthy_record (channel_in_use w cid) = false →
  load_channel cid (cached_channel w cid) w
  = (Err (HTTPException 404 "channel not found"), after_load w cid).
Proof.
  unfold channel_in_use, after_load, load_channel, reload_needed.
  destruct (negb (nonempty (cached_channel w cid))
            || bool_decide (cached_channel w cid !! "kind" = None)) eqn:Hreload.
  - intros Hnone. run. unfold fetch_and_cache_channel. simpl.
    destruct (channels w !! cid) as [r|] eqn:Hr; simpl in *; by rewrite ?Hnone.
  - intros Hnone. run. by rewrite Hnone.
Qed.

Section on_a_channel.
Context {env : Collaborators}.

(** A call that stops inside the [if]/[elif] chain on the kind. *)
Lemma fetch_user_permissions_stops (cid : string) (sid uid : option string)
    (w : World) (ch : record) (out : result (list string)) :
  cid ≠ "" → channel_in_use w cid = Some ch → ch ≠ ∅ →
  (∀ w1, by_kind sid uid ch w1
         = (match out with Ok ps => Ok (Return ps) | Err e => Err e end, w1)) →
  fetch_user_permissions (Some cid) sid uid w = (out, after_load w cid).
Proof.
  intros Hcid Hch Hne Hkind. unfold fetch_user_permissions.
  rewrite (truthy_Some cid Hcid). cbn [negb andb].
  rewrite bind_eq, snapshot_of_channel. cbn beta iota.
  unfold channel_context. rewrite (truthy_Some cid Hcid), or_empty_Some.
  rewrite bind_eq, bind_eq, (load_channel_in_use _ _ _ Hch Hne). cbn beta iota.
  rewrite bind_eq, Hkind.
  by destruct out.
Qed.
End on_a_channel.
Section channel_kinds.
Context {env : Collaborators}.

Lemma kind_nonempty (ch : record) (k : string) : ch !! "kind" = Some k → ch ≠ ∅.
Proof. intros Hk ->. by rewrite lookup_empty in Hk. Qed.

Lemma by_kind_unknown (sid uid : option string) (ch : record) (w : World) :
  ch !! "kind" ≠ Some "dm" → ch !! "kind" ≠ Some "topic" → ch !! "kind" ≠ Some "server" →
  by_kind sid uid ch w = (Err (APIPermissionError (unknown_channel_type ch)), w).
Proof.
  intros Hdm Htopic Hserver. unfold by_kind.
  by rewrite !bool_decide_eq_false_2.
Qed.

Lemma by_kind_dm (sid uid : option string) (ch : record) (w : World) :
  ch !! "kind" = Some "dm" →
  by_kind sid uid ch w =
    match ch !! "members" with
    | None => (Err AttributeError, w)
    | Some members =>
        if truthy uid && bool_decide (or_empty uid ∈ split comma members)
        then (Ok (Return DEFAULT_DM_MEMBER_PERMISSIONS), w)
        else (Err (APIPermissionError (message "user is not a member of DM channel")), w)
    end.
Proof.
  intros Hdm. unfold by_kind, members_of.
  rewrite bool_decide_eq_true_2 by done.
  destruct (ch !! "members") as [members|]; [|done].
  rewrite bind_eq, ret_eq.
  by destruct (truthy uid), (bool_decide (or_empty uid ∈ split comma members)).
Qed.

(** C7. A channel record that exists and whose kind is none of dm, topic
    and server (a missing kind included) makes the resolver fail with the
    permission error for an unknown channel type, which is answered as
    Forbidden, for every user id and server id; nothing after the kind
    dispatch runs. *)
Theorem unknown_kind_is_forbidden (cid : string) (sid uid : option string)
    (w : World) (ch : record) :
  cid ≠ "" → channel_in_use w cid = Some ch → ch ≠ ∅ →
  ch !! "kind" ≠ Some "dm" → ch !! "kind" ≠ Some "topic" → ch !! "kind" ≠ Some "server" →
  fetch_user_permissions (Some cid) sid uid w
  = (Err (APIPermissionError (unknown_channel_type ch)), after_load w cid)
  ∧ is_forbidden (APIPermissionError (unknown_channel_type ch)) = true.
Proof.
  intros Hcid Hch Hne Hdm Htopic Hserver. split; [|done].
  apply (fetch_user_permissions_stops cid sid uid w ch (Err _)); try done.
  intros w1. by apply by_kind_unknown.
Qed.

(** C4. On a dm channel whose members field is present, the resolver fails
    with a Forbidden-class error exactly when the user id is absent (None
    or empty) or not among the members, and for a member it returns
    exactly the dm member defaults; in both cases nothing after the kind
    dispatch runs, so no overwrite and no role is consulted. *)
Theorem dm_members_only (cid : string) (sid uid : option string) (w : World)
    (ch : record) (members : string) :
  cid ≠ "" → channel_in_use w cid = Some ch →
  ch !! "kind" = Some "dm" → ch !! "members" = Some members →
  let outcome := fetch_user_permissions (Some cid) sid uid w in
  ((∃ e, outcome.1 = Err e ∧ is_forbidden e = true)
     ↔ truthy uid = false ∨ or_empty uid ∉ split comma members)
  ∧ (truthy uid = false ∨ or_empty uid ∉ split comma members →
     outcome = (Err (APIPermissionError (message "user is not a member of DM channel")),
                after_load w cid))
  ∧ (truthy uid = true → or_empty uid ∈ split comma members →
     outcome = (Ok DEFAULT_DM_MEMBER_PERMISSIONS, after_load w cid)).
Proof.
  intros Hcid Hch Hdm Hmembers outcome.
  assert (Hne : ch ≠ ∅) by by eapply kind_nonempty.
  assert (Hin : truthy uid = true → or_empty uid ∈ split comma members →
                outcome = (Ok DEFAULT_DM_MEMBER_PERMISSIONS, after_load w cid)).
  { intros Hu Hm.
    apply (fetch_user_permissions_stops cid sid uid w ch (Ok _)); try done.
    intros w1. rewrite by_kind_dm, Hmembers, Hu by done.
    by rewrite bool_decide_eq_true_2. }
  assert (Hout : truthy uid = false ∨ or_empty uid ∉ split comma members →
                 outcome = (Err (APIPermissionError
                                   (message "user is not a member of DM channel")),
                            after_load w cid)).
  { intros Hno.
    apply (fetch_user_permissions_stops cid sid uid w ch (Err _)); try done.
    intros w1. rewrite by_kind_dm, Hmembers by done.
    destruct Hno as [->|Hno]; [done|].
    rewrite (bool_decide_eq_false_2 _ Hno). by destruct (truthy uid). }
  split_and!; [|done|done].
  split.
  - intros (e & He & Hforbidden).
    destruct (truthy uid) eqn:Hu; [|by left]. right. intros Hm.
    rewrite (Hin eq_refl Hm) in He. done.
  - intros Hno. rewrite (Hout Hno). by eexists.
Qed.

(** C10. On a dm channel the membership test is defined only when the
    record has a members field: without it, splitting the list default
    raises an attribute error (a failure of the value's type, neither
    Forbidden nor NotFound) for every user id; with it, the outcome is the
    dm member defaults or the Forbidden failure. *)
Theorem dm_needs_members_field (cid : string) (sid uid : option string) (w : World)
    (ch : record) :
  cid ≠ "" → channel_in_use w cid = Some ch → ch !! "kind" = Some "dm" →
  let outcome := fetch_user_permissions (Some cid) sid uid w in
  match ch !! "members" with
  | None =>
      outcome = (Err AttributeError, after_load w cid)
      ∧ is_forbidden AttributeError = false ∧ is_not_found AttributeError = false
  | Some _ =>
      outcome = (Ok DEFAULT_DM_MEMBER_PERMISSIONS, after_load w cid)
      ∨ outcome = (Err (APIPermissionError (message "user is not a member of DM channel")),
                   after_load w cid)
  end.
Proof.
  intros Hcid Hch Hdm outcome.
  assert (Hne : ch ≠ ∅) by by eapply kind_nonempty.
  destruct (ch !! "members") as [members|] eqn:Hmembers.
  - destruct (truthy uid && bool_decide (or_empty uid ∈ split comma members)) eqn:Hm.
    + left. apply (fetch_user_permissions_stops cid sid uid w ch (Ok _)); try done.
      intros w1. by rewrite by_kind_dm, Hmembers, Hm.
    + right. apply (fetch_user_permissions_stops cid sid uid w ch (Err _)); try done.
      intros w1. by rewrite by_kind_dm, Hmembers, Hm.
  - split_and!; [|done|done].
    apply (fetch_user_permissions_stops cid sid uid w ch (Err _)); try done.
    intros w1. by rewrite by_kind_dm, Hmembers.
Qed.
End channel_kinds.

(** A channel of kind bogus, known to durable storage only. *)
Lemma unknown_kind_is_forbidden_witness :
  let ch := rec [("kind", "bogus"); ("owner", "u1")] in
  let w := with_channels [("c1", ch)] empty_world in
  fetch_user_permissions (env := granting []) (Some "c1") None (Some "u1") w
  = (Err (APIPermissionError (unknown_channel_type ch)), after_load w "c1")
  ∧ is_forbidden (APIPermissionError (unknown_channel_type ch)) = true.
Proof.
  intros ch w.
  apply (unknown_kind_is_forbidden (env := granting []) "c1" None (Some "u1") w ch);
    by vm_compute.
Defined.

(** A cached dm channel with members u1 and u2, asked about by u3 and by u2. *)
Lemma dm_members_only_witness :
  let ch := rec [("kind", "dm"); ("members", "u1,u2")] in
  let w := with_cache [("channel:c1", ch)] empty_world in
  let outcome uid := fetch_user_permissions (env := granting []) (Some "c1") None uid w in
  outcome (Some "u3")
  = (Err (APIPermissionError (message "user is not a member of DM channel")), w)
  ∧ outcome (Some "u2") = (Ok DEFAULT_DM_MEMBER_PERMISSIONS, w).
Proof.
  intros ch w outcome.
  assert (Hcid : "c1" ≠ "") by discriminate.
  pose proof (λ uid, dm_members_only (env := granting []) "c1" None uid w ch "u1,u2"
                       Hcid eq_refl eq_refl eq_refl) as Hdm.
  split.
  - apply (Hdm (Some "u3")). right. compute_done.
  - apply (Hdm (Some "u2")); compute_done.
Defined.

(** A dm channel record without a members field. *)
Lemma dm_needs_members_field_witness :
  let ch := rec [("kind", "dm")] in
  let w := with_channels [("c1", ch)] empty_world in
  fetch_user_permissions (env := granting []) (Some "c1") None (Some "u1") w
  = (Err AttributeError, after_load w "c1")
  ∧ is_forbidden AttributeError = false ∧ is_not_found AttributeError = false.
Proof.
  intros ch w.
  assert (Hcid : "c1" ≠ "") by discriminate.
  exact (dm_needs_members_field (env := granting []) "c1" None (Some "u1") w ch
           Hcid eq_refl eq_refl).
Defined.

(** ** Reloading the channel record *)

Lemma safe_ret {A} (a : A) : after_load_safe (mret a).
Proof. intros w. by split_and!. Qed.

Lemma safe_raise {A} (e : exn) : is_not_found e = false → after_load_safe (raise (A := A) e).
Proof. intros He w. split_and!; try done. simpl. by intros ? [= <-]. Qed.

Lemma safe_bind {A B} (m : M A) (k : A → M B) :
  after_load_safe m → (∀ a, after_load_safe (k a)) → after_load_safe (m ≫= k).
Proof.
  intros Hm Hk w. rewrite bind_eq. specialize (Hm w).
  destruct (m w) as [[a|e] w1]; simpl in Hm.
  - specialize (Hk a w1). destruct Hm as (Hm1 & Hm2 & Hm3 & _), Hk as (Hk1 & Hk2 & Hk3 & Hk4).
    split_and!; [congruence| |auto|done].
    intros cid. by rewrite Hk2.
  - destruct Hm as (Hm1 & Hm2 & Hm3 & Hm4). split_and!; [done..|].
    intros e' [= <-]. by apply Hm4.
Qed.

Lemma safe_populate (key : string) (r : record) (w : World) (q : db_read) :
  (∀ cid, key ≠ channel_key cid) →
  channels (populate key r (log_read q w)) = channels w
  ∧ (∀ cid, cache (populate key r (log_read q w)) !! channel_key cid
            = cache w !! channel_key cid)
  ∧ (∀ q', q' ∈ reads w → q' ∈ reads (populate key r (log_read q w))).
Proof.
  intros Hkey. split_and!; [done| |].
  - intros cid. simpl. by rewrite lookup_insert_ne.
  - intros q' Hq'. simpl. by apply list_elem_of_further.
Qed.

Lemma safe_log (w : World) (q : db_read) :
  channels (log_read q w) = channels w
  ∧ (∀ cid, cache (log_read q w) !! channel_key cid = cache w !! channel_key cid)
  ∧ (∀ q', q' ∈ reads w → q' ∈ reads (log_read q w)).
Proof. split_and!; [done..|]. intros q' Hq'. simpl. by apply list_elem_of_further. Qed.

Lemma safe_fetch_and_cache_server (sid : string) : after_load_safe (fetch_and_cache_server sid).
Proof.
  intros w. unfold fetch_and_cache_server.
  destruct (servers (log_read (ReadServer sid) w) !! sid) as [r|]; simpl.
  - destruct (safe_populate (server_key sid) r w (ReadServer sid)) as (?&?&?); [done|].
    by split_and!.
  - destruct (safe_log w (ReadServer sid)) as (?&?&?). by split_and!.
Qed.

Lemma safe_fetch_and_cache_section (sid : option string) (cid : string) :
  after_load_safe (fetch_and_cache_section sid cid).
Proof.
  intros w. unfold fetch_and_cache_section.
  destruct (sid ≫= _) as [r|]; simpl.
  - destruct (safe_populate (section_key (py_str sid)) r w (ReadSection sid cid)) as (?&?&?);
      [done|]. by split_and!.
  - destruct (safe_log w (ReadSection sid cid)) as (?&?&?). by split_and!.
Qed.

Lemma safe_fetch_and_cache_user (uid : string) (sid : option string) :
  after_load_safe (fetch_and_cache_user uid sid).
Proof.
  intros w. unfold fetch_and_cache_user.
  destruct (sid ≫= _) as [r|]; simpl.
  - destruct (safe_populate (user_key uid) r w (ReadUser uid sid)) as (?&?&?); [done|].
    by split_and!.
  - destruct (safe_log w (ReadUser uid sid)) as (?&?&?). by split_and!.
Qed.

Lemma safe_lift {A} (r : result A) :
  (∀ e, r = Err e → is_not_found e = false) → after_load_safe (lift r).
Proof. intros Hr w. by split_and!. Qed.

Ltac safe :=
  repeat first
    [ apply safe_ret
    | apply safe_raise; reflexivity
    | apply safe_fetch_and_cache_server
    | apply safe_fetch_and_cache_section
    | apply safe_fetch_and_cache_user
    | apply safe_bind; [|intros ?]
    | match goal with
      | |- after_load_safe (if ?b then _ else _) => destruct b
      | |- after_load_safe (match ?x with _ => _ end) => destruct x
      | |- after_load_safe (let '_ := ?x in _) => destruct x
      end ].

Section after_the_load.
Context {env : Collaborators}.

Lemma safe_loads (x : option string) e : loads x = Err e → is_not_found e = false.
Proof.
  unfold loads. destruct x as [s|]; [|by intros [= <-]].
  destruct (json_loads s); [done|by intros [= <-]].
Qed.

Lemma safe_by_kind (sid uid : option string) (ch : record) :
  after_load_safe (by_kind sid uid ch).
Proof. unfold by_kind, members_of. safe. Qed.

Lemma safe_roles_and_overwrites (cid sid uid : option string)
    (ch user server section : record) (user_roles : roles) :
  after_load_safe (roles_and_overwrites cid sid uid ch user server section user_roles).
Proof.
  unfold roles_and_overwrites, server_context, roles_in_server, load_overwrites.
  safe; apply safe_lift.
  all: unfold channel_overwrites_of, section_overwrites_of; intros e;
    try (destruct (nonempty _); [|done]); apply safe_loads.
Qed.
End after_the_load.

Section reload.
Context {env : Collaborators}.

(** The resolver on a channel id, once the channel record is loaded. *)
Lemma fetch_user_permissions_on_channel (cid : string) (sid uid : option string)
    (w : World) (ch : record) :
  cid ≠ "" → channel_in_use w cid = Some ch → ch ≠ ∅ →
  fetch_user_permissions (Some cid) sid uid w
  = (next ← by_kind sid uid ch;
     match next with
     | Return permissions => mret permissions
     | Continue (server_id, user_roles) =>
         roles_and_overwrites (Some cid) server_id uid ch
           (cached_user w (or_empty uid)) (cached_server w cid) (cached_section w cid)
           user_roles
     end) (after_load w cid).
Proof.
  intros Hcid Hch Hne. unfold fetch_user_permissions.
  rewrite (truthy_Some cid Hcid). cbn [negb andb].
  rewrite bind_eq, snapshot_of_channel. cbn beta iota.
  unfold channel_context. rewrite (truthy_Some cid Hcid), or_empty_Some.
  rewrite !bind_eq, (load_channel_in_use _ _ _ Hch Hne). cbn beta iota.
  rewrite bind_eq.
  destruct (by_kind sid uid ch (after_load w cid)) as [[[ps|[sid' user_roles]]|e] w1]; done.
Qed.

Lemma fetch_user_permissions_not_found (cid : string) (sid uid : option string) (w : World) :
  cid ≠ "" → truthy_record (channel_in_use w cid) = false →
  fetch_user_permissions (Some cid) sid uid w
  = (Err (HTTPException 404 "channel not found"), after_load w cid).
Proof.
  intros Hcid Hch. unfold fetch_user_permissions.
  rewrite (truthy_Some cid Hcid). cbn [negb andb].
  rewrite bind_eq, snapshot_of_channel. cbn beta iota.
  unfold channel_context. rewrite (truthy_Some cid Hcid), or_empty_Some.
  by rewrite !bind_eq, (load_channel_not_found _ _ Hch).
Qed.

(** Whatever the call does after the channel record is loaded, it leaves the
    cached channel records and the log entries of the load in place, and
    does not end in the 404. *)
Lemma fetch_user_permissions_after_load (cid : string) (sid uid : option string)
    (w : World) (ch : record) :
  cid ≠ "" → channel_in_use w cid = Some ch → ch ≠ ∅ →
  let outcome := fetch_user_permissions (Some cid) sid uid w in
  (∀ c, cache outcome.2 !! channel_key c = cache (after_load w cid) !! channel_key c)
  ∧ (∀ q, q ∈ reads (after_load w cid) → q ∈ reads outcome.2)
  ∧ (∀ e, outcome.1 = Err e → is_not_found e = false).
Proof.
  intros Hcid Hch Hne outcome. subst outcome.
  rewrite (fetch_user_permissions_on_channel _ _ _ _ _ Hcid Hch Hne).
  match goal with |- context [(?m ≫= ?k) _] => assert (Hsafe : after_load_safe (m ≫= k)) end.
  { apply safe_bind; [apply safe_by_kind|].
    intros [ps|[sid' user_roles]]; [apply safe_ret|apply safe_roles_and_overwrites]. }
  destruct (Hsafe (after_load w cid)) as (_ & ? & ? & ?). done.
Qed.

Lemma after_load_reloaded (cid : string) (w : World) :
  reload_needed w cid = true →
  ReadChannel cid ∈ reads (after_load w cid)
  ∧ ∀ r, channels w !! cid = Some r → cache (after_load w cid) !! channel_key cid = Some r.
Proof.
  intros Hreload. unfold after_load, fetch_and_cache_channel. rewrite Hreload. simpl.
  destruct (channels w !! cid) as [r|]; simpl.
  - split; [apply list_elem_of_here|]. intros r' [= <-]. by rewrite lookup_insert_eq.
  - split; [apply list_elem_of_here|done].
Qed.

(** C6. With a channel id supplied, when the cached channel record is absent
    or lacks a kind the channel is read again from durable storage (the read
    is logged, and a record found there is what the cache holds for the
    channel when the call ends), and the call fails with the 404 not-found
    error exactly when that reload was needed and found no record. *)
Theorem channel_reloaded_or_not_found (cid : string) (sid uid : option string) (w : World) :
  cid ≠ "" →
  let outcome := fetch_user_permissions (Some cid) sid uid w in
  (reload_needed w cid = true →
     ReadChannel cid ∈ reads outcome.2
     ∧ ∀ r, channels w !! cid = Some r → cache outcome.2 !! channel_key cid = Some r)
  ∧ ((∃ e, outcome.1 = Err e ∧ is_not_found e = true)
     ↔ reload_needed w cid = true ∧ truthy_record (channels w !! cid) = false)
  ∧ (reload_needed w cid = true → truthy_record (channels w !! cid) = false →
     outcome.1 = Err (HTTPException 404 "channel not found")).
Proof.
  intros Hcid outcome. subst outcome.
  destruct (truthy_record (channel_in_use w cid)) eqn:Huse.
  - destruct (channel_in_use w cid) as [ch|] eqn:Hch; [|done].
    assert (Hne : ch ≠ ∅).
    { unfold truthy_record, nonempty in Huse. by case_bool_decide. }
    destruct (fetch_user_permissions_after_load cid sid uid w ch Hcid Hch Hne)
      as (Hcache & Hreads & Hnot404).
    assert (Hloaded : reload_needed w cid = true → truthy_record (channels w !! cid) = true).
    { intros Hreload. unfold channel_in_use in Hch. rewrite Hreload in Hch.
      by rewrite Hch. }
    split_and!.
    + intros Hreload. destruct (after_load_reloaded cid w Hreload) as [Hlog Hpop].
      split; [by apply Hreads|]. intros r Hr. rewrite Hcache. by apply Hpop.
    + split.
      * intros (e & He & H404). apply Hnot404 in He. congruence.
      * intros [Hreload Habsent]. apply Hloaded in Hreload. congruence.
    + intros Hreload Habsent. apply Hloaded in Hreload. congruence.
  - rewrite (fetch_user_permissions_not_found cid sid uid w Hcid Huse). simpl.
    assert (Hreload : reload_needed w cid = true).
    { unfold channel_in_use in Huse. destruct (reload_needed w cid) eqn:Hreload; [done|].
      unfold reload_needed in Hreload. apply orb_false_elim in Hreload as [Hreload _].
      apply negb_false_iff in Hreload. unfold truthy_record in Huse. congruence. }
    assert (Habsent : truthy_record (channels w !! cid) = false).
    { unfold channel_in_use in Huse. by rewrite Hreload in Huse. }
    split_and!.
    + intros _. destruct (after_load_reloaded cid w Hreload) as [Hlog Hpop]. done.
    + split; [done|]. intros _. by eexists.
    + done.
Qed.
End reload.

(** A cold cache: channel c1 is in durable storage, channel c2 is nowhere. *)
Lemma channel_reloaded_or_not_found_witness :
  let ch := rec [("kind", "dm"); ("members", "u1,u2")] in
  let cold := with_channels [("c1", ch)] empty_world in
  let found := fetch_user_permissions (env := granting []) (Some "c1") None (Some "u1") cold in
  let missing := fetch_user_permissions (env := granting []) (Some "c2") None (Some "u1") cold in
  (ReadChannel "c1" ∈ reads found.2 ∧ cache found.2 !! channel_key "c1" = Some ch)
  ∧ missing.1 = Err (HTTPException 404 "channel not found").
Proof.
  intros ch cold found missing.
  assert (Hc1 : "c1" ≠ "") by discriminate.
  assert (Hc2 : "c2" ≠ "") by discriminate.
  split.
  - destruct (channel_reloaded_or_not_found (env := granting []) "c1" None (Some "u1") cold Hc1)
      as (Hreload & _ & _).
    destruct (Hreload eq_refl) as [Hlog Hpop]. split; [exact Hlog|]. by apply Hpop.
  - destruct (channel_reloaded_or_not_found (env := granting []) "c2" None (Some "u1") cold Hc2)
      as (_ & _ & H404).
    by apply H404.
Defined.

(** ** The gate *)

Section gate.
Context {env : Collaborators}.

Lemma all_held_spec (R ups : list string) :
  forallb (λ req_permission, bool_decide (req_permission ∈ ups)) R = true
  ↔ ∀ p, p ∈ R → p ∈ ups.
Proof.
  rewrite forallb_forall. split.
  - intros Hall p Hp. apply list_elem_of_In, Hall in Hp. by apply bool_decide_eq_true in Hp.
  - intros Hall p Hp. apply bool_decide_eq_true, Hall. by apply list_elem_of_In.
Qed.

Lemma some_missing_spec (R ups : list string) :
  forallb (λ req_permission, bool_decide (req_permission ∈ ups)) R = false
  ↔ ∃ p, p ∈ R ∧ p ∉ ups.
Proof.
  induction R as [|r R IH]; simpl.
  - split; [done|]. intros (p & Hp & _). by apply not_elem_of_nil in Hp.
  - rewrite andb_false_iff, IH, bool_decide_eq_false. split.
    + intros [Hr|(p & Hp & Hmiss)].
      * exists r. split; [apply list_elem_of_here|done].
      * exists p. split; [by apply list_elem_of_further|done].
    + intros (p & Hp & Hmiss). apply elem_of_cons in Hp as [->|Hp]; [by left|].
      right. by exists p.
Qed.

(** C9. The gate resolves the user's permissions for the ids extracted from
    the request. If resolution succeeds with the set [ups], the gate fails
    with the permission error carrying the required list and [ups] exactly
    when some required permission is not in [ups], it returns normally
    exactly when all of them are (always so for an empty list), and it fails
    in no other way; if resolution fails, the gate fails the same way. *)
Theorem check_request_permissions_denies_iff_missing (request : Request)
    (R : list string) (current_user : option User) (w : World) :
  let gate := check_request_permissions request R current_user w in
  match fetch_user_permissions (_fetch_channel_from_request request)
          (_fetch_server_from_request request) (pk <$> current_user) w with
  | (Ok ups, w') =>
      (gate = (Err (APIPermissionError (needed_vs_actual R ups)), w')
         ↔ ∃ p, p ∈ R ∧ p ∉ ups)
      ∧ (gate = (Ok (), w') ↔ ∀ p, p ∈ R → p ∈ ups)
      ∧ (∀ e, gate.1 = Err e → e = APIPermissionError (needed_vs_actual R ups))
      ∧ check_request_permissions request [] current_user w = (Ok (), w')
  | (Err e, w') => gate = (Err e, w')
  end.
Proof.
  intros gate. subst gate. unfold check_request_permissions. rewrite !bind_eq.
  destruct (fetch_user_permissions _ _ _ w) as [[ups|e] w']; [|done].
  destruct (forallb (λ req_permission, bool_decide (req_permission ∈ ups)) R) eqn:Hall;
    cbn [negb forallb].
  - pose proof (proj1 (all_held_spec R ups) Hall) as Hheld.
    split_and!; try done.
    split; [done|]. intros (p & Hp & Hmiss). by apply Hheld in Hp.
  - pose proof (proj1 (some_missing_spec R ups) Hall) as Hmiss.
    split_and!; try done.
    + split; [by intros [=]|]. intros Hheld. apply all_held_spec in Hheld. congruence.
    + by intros e [= <-].
Qed.
End gate.

(** ** Server ownership *)

Section server_owner.
Context {env : Collaborators}.

Lemma snapshot_eq (channel_id : option string) (u : string) (w : World) :
  fetch_cached_permissions_data channel_id u w
  = (Ok (cached_channel w (py_str channel_id), cached_user w u,
         cached_server w (py_str channel_id), cached_section w (py_str channel_id)), w).
Proof. reflexivity. Qed.

(** The owner test is reached when the server record was not in the cache
    snapshot: the record is fetched and its owner gets the full catalog. *)
Lemma server_context_on_miss (S U : string) (user : record) (user_roles : roles)
    (w : World) (srv : record) :
  S ≠ "" → U ≠ "" → servers w !! S = Some srv → srv !! "owner" = Some U →
  server_context (Some S) (Some U) user ∅ user_roles w
  = (Ok (Return SERVER_OWNER_PERMISSIONS), (fetch_and_cache_server S w).2).
Proof.
  intros HS HU Hsrv Howner. unfold server_context.
  rewrite (truthy_Some S HS), (truthy_Some U HU), or_empty_Some.
  replace (nonempty ∅) with false by by (unfold nonempty; rewrite bool_decide_eq_true_2).
  cbn [negb andb]. rewrite bind_eq.
  unfold fetch_and_cache_server at 1. simpl. rewrite Hsrv.
  rewrite bool_decide_eq_true_2 by done.
  unfold fetch_and_cache_server. simpl. by rewrite Hsrv.
Qed.

(** Server id supplied directly, no channel id, server record not cached. *)
Lemma server_owner_direct_on_miss (channel_id : option string) (S U : string)
    (w : World) (srv : record) :
  truthy channel_id = false → cached_server w (py_str channel_id) = ∅ →
  S ≠ "" → U ≠ "" → servers w !! S = Some srv → srv !! "owner" = Some U →
  (fetch_user_permissions channel_id (Some S) (Some U) w).1 = Ok SERVER_OWNER_PERMISSIONS.
Proof.
  intros Hcid Hmiss HS HU Hsrv Howner. unfold fetch_user_permissions.
  rewrite Hcid, (truthy_Some S HS). cbn [negb andb].
  rewrite bind_eq, snapshot_eq. cbn beta iota.
  unfold channel_context. rewrite Hcid, bind_eq, ret_eq.
  unfold roles_and_overwrites. rewrite bind_eq, Hmiss.
  by rewrite (server_context_on_miss S U _ _ _ srv).
Qed.

End server_owner.

(** C1. The owner test sits under the branch that fetches a server record
    missing from the cache snapshot. On a cold cache the owner of server s1
    asking about channel c1 of that server gets the full catalog, and the
    call leaves the channel and the server cached; asked again in that
    state, the resolver finds the server record in the snapshot, skips the
    test, and returns what the roles give. *)
Theorem server_owner_not_recognised_once_cached :
  let env := granting [("everyone", DEFAULT_ROLE_PERMISSIONS)] in
  let first := fetch_user_permissions (env := env) (Some "c1") None (Some "u1")
                 owned_server_cold in
  let second := fetch_user_permissions (env := env) (Some "c1") None (Some "u1")
                  owned_server_warm in
  servers owned_server_cold !! "s1" ≫= (.!! "owner") = Some "u1"
  ∧ first.1 = Ok SERVER_OWNER_PERMISSIONS
  ∧ cache first.2 = cache owned_server_warm
  ∧ cached_server owned_server_warm "c1" !! "owner" = Some "u1"
  ∧ second.1 = Ok ["messages.create"; "messages.list"]
  ∧ second.1 ≠ Ok SERVER_OWNER_PERMISSIONS.
Proof. by vm_compute. Qed.

(** ** Overwrites and topic channels *)

Lemma elem_of_sorted (s : gset string) (p : string) : p ∈ sorted s ↔ p ∈ s.
Proof. unfold sorted. by rewrite merge_sort_Permutation, elem_of_elements. Qed.

Lemma sorted_empty : sorted ∅ = [].
Proof. unfold sorted. by rewrite elements_empty. Qed.

Lemma nonempty_empty : nonempty ∅ = false.
Proof. unfold nonempty. by rewrite bool_decide_eq_true_2. Qed.

Section overwrites_and_topics.
Context {env : Collaborators}.

(** A channel record without a permissions field has no overwrites. *)
Lemma channel_overwrites_default (ch : record) :
  ch !! "permissions" = None → channel_overwrites_of ch = Ok ∅.
Proof.
  intros Hnone. unfold channel_overwrites_of, loads. rewrite Hnone. simpl.
  by rewrite json_loads_empty_object.
Qed.

(** A section record with fields but no permissions field cannot be decoded:
    the default handed to the decoder is a dict. *)
Lemma section_overwrites_without_field (section : record) :
  section ≠ ∅ → section !! "permissions" = None →
  section_overwrites_of section = Err TypeError.
Proof.
  intros Hne Hnone. unfold section_overwrites_of, nonempty.
  rewrite bool_decide_eq_false_2 by done. simpl. by rewrite Hnone.
Qed.

(** Without a server id and without a cached server record, the roles are
    left as the channel block set them and nothing is fetched. *)
Lemma server_context_none (sid uid : option string) (user : record) (user_roles : roles)
    (w : World) :
  truthy sid = false →
  server_context sid uid user ∅ user_roles w = (Ok (Continue user_roles), w).
Proof.
  intros Hsid. unfold server_context, roles_in_server.
  by rewrite Hsid, nonempty_empty.
Qed.

(** The section step of the overwrite loading reads the section in use. *)
Lemma load_overwrites_in_use (cid : string) (ch : record) (w0 w : World)
    (so co : overwrites) :
  cid ≠ "" → sections w = sections w0 →
  channel_overwrites_of ch = Ok co →
  section_overwrites_of (section_in_use w0 cid ch) = Ok so →
  (load_overwrites (Some cid) ch (cached_section w0 cid) w).1 = Ok (so, co).
Proof.
  intros Hcid Hsections Hco Hso. unfold load_overwrites.
  rewrite lift_bind_eq, Hco.
  rewrite (truthy_Some cid Hcid), andb_true_r, or_empty_Some.
  unfold section_in_use in Hso. rewrite bind_eq.
  destruct (nonempty (cached_section w0 cid)) eqn:Hcached; cbn [negb].
  - by rewrite ret_eq, lift_bind_eq, Hso.
  - destruct (bool_decide (ch !! "section" ≠ Some "")) eqn:Hdeclared.
    + unfold fetch_and_cache_section. simpl. rewrite Hsections.
      destruct (ch !! "section" ≫= _) as [r|]; simpl in *; by rewrite lift_bind_eq, Hso.
    + rewrite ret_eq, lift_bind_eq.
      assert (Hempty : section_overwrites_of (cached_section w0 cid) = Ok so).
      { unfold section_overwrites_of in *. by rewrite Hcached, nonempty_empty in *. }
      by rewrite Hempty.
Qed.

Lemma after_load_sections (w : World) (cid : string) : sections (after_load w cid) = sections w.
Proof.
  unfold after_load, fetch_and_cache_channel.
  destruct (reload_needed w cid); [|done]. simpl. by destruct (channels w !! cid).
Qed.

(** A topic channel, resolved without any server in play, for a user who is
    not the owner: the roles are the [@members] seed for a listed member and
    empty otherwise, and the result is the algorithm's on those roles. *)
Lemma topic_without_server (cid : string) (sid uid : option string) (w : World)
    (ch : record) (members : string) (so co : overwrites) :
  cid ≠ "" → channel_in_use w cid = Some ch → ch !! "kind" = Some "topic" →
  ¬ (truthy uid = true ∧ ch !! "owner" = uid) →
  ch !! "members" = Some members →
  truthy sid = false → cached_server w cid = ∅ →
  channel_overwrites_of ch = Ok co →
  section_overwrites_of (section_in_use w cid ch) = Ok so →
  (fetch_user_permissions (Some cid) sid uid w).1
  = Ok (sorted (_calc_final_permissions
                  (if truthy uid && bool_decide (or_empty uid ∈ split comma members)
                   then [("@members", DEFAULT_TOPIC_MEMBER_PERMISSIONS)] else [])
                  so co)).
Proof.
  intros Hcid Hch Hkind Hnotowner Hmembers Hsid Hmiss Hco Hso.
  rewrite (fetch_user_permissions_on_channel cid sid uid w ch Hcid Hch)
    by by eapply kind_nonempty.
  rewrite bind_eq. unfold by_kind, members_of. rewrite Hkind, Hmembers.
  rewrite bool_decide_eq_false_2 by done. rewrite bool_decide_eq_true_2 by done.
  assert (Hguard : truthy uid && bool_decide (ch !! "owner" = uid) = false).
  { destruct (truthy uid) eqn:Hu; [|done]. simpl. apply bool_decide_eq_false_2.
    intros Howner. by apply Hnotowner. }
  rewrite Hguard, bind_eq, ret_eq. cbn beta iota.
  pose proof (load_overwrites_in_use cid ch w (after_load w cid) so co Hcid
                (after_load_sections w cid) Hco Hso) as Hload.
  destruct (truthy uid && bool_decide (or_empty uid ∈ split comma members));
    rewrite ret_eq; unfold roles_and_overwrites;
    rewrite bind_eq, Hmiss, (server_context_none _ _ _ _ _ Hsid), bind_eq;
    destruct (load_overwrites _ _ _ _) as [[[so' co']|e] w2]; simpl in Hload;
    by simplify_eq.
Qed.

(** C5, as amended. On a topic channel: the owner (a present user id equal
    to the channel's owner) gets the channel owner permissions at once; a
    listed member who is not the owner, with no server in play (no server id
    supplied, no server record cached for the channel) and with neither the
    channel nor the section overwrites speaking for ["@members"], gets a
    result that contains the topic member defaults; and on a record that has
    a members field, a user who is neither owner nor listed in it, with no
    server in play and no ["@public"] channel overwrite, gets the empty
    list. The overwrite maps are those the channel record and the section in
    use decode to. *)
Theorem topic_owner_member_stranger (cid : string) (sid uid : option string) (w : World)
    (ch : record) :
  cid ≠ "" → channel_in_use w cid = Some ch → ch !! "kind" = Some "topic" →
  let outcome := fetch_user_permissions (Some cid) sid uid w in
  (truthy uid = true → ch !! "owner" = uid →
     outcome = (Ok CHANNEL_OWNER_PERMISSIONS, after_load w cid))
  ∧ (∀ so co,
       listed uid ch → ch !! "owner" ≠ uid →
       truthy sid = false → cached_server w cid = ∅ →
       channel_overwrites_of ch = Ok co →
       section_overwrites_of (section_in_use w cid ch) = Ok so →
       co !! "@members" = None → so !! "@members" = None →
       ∃ permissions, outcome.1 = Ok permissions
                      ∧ ∀ p, p ∈ DEFAULT_TOPIC_MEMBER_PERMISSIONS → p ∈ permissions)
  ∧ (∀ members so co,
       ch !! "members" = Some members → ¬ listed uid ch →
       ¬ (truthy uid = true ∧ ch !! "owner" = uid) →
       truthy sid = false → cached_server w cid = ∅ →
       channel_overwrites_of ch = Ok co →
       section_overwrites_of (section_in_use w cid ch) = Ok so →
       co !! "@public" = None →
       outcome.1 = Ok []).
Proof.
  intros Hcid Hch Hkind outcome. subst outcome. split_and!.
  - intros Hu Howner.
    apply (fetch_user_permissions_stops cid sid uid w ch (Ok _)); try done;
      [by eapply kind_nonempty|].
    intros w1. unfold by_kind. rewrite Hkind, Hu.
    rewrite bool_decide_eq_false_2 by done. by rewrite !bool_decide_eq_true_2.
  - intros so co (u & members & -> & Hu & Hmembers & Hin) Hnotowner Hsid Hmiss Hco Hso
      Hcm Hsm.
    eexists. split.
    + apply (topic_without_server cid sid (Some u) w ch members so co); try done.
      by intros [_ ?].
    + intros p Hp. rewrite (truthy_Some u Hu), or_empty_Some.
      rewrite bool_decide_eq_true_2 by done. cbn [andb].
      apply elem_of_sorted. rewrite calc_final_permissions_unfold.
      apply elem_of_union_of_tiers. left.
      exists "@members", DEFAULT_TOPIC_MEMBER_PERMISSIONS.
      split; [apply list_elem_of_here|]. unfold tier_of. by rewrite Hcm, Hsm.
  - intros members so co Hmembers Hnotlisted Hnotowner Hsid Hmiss Hco Hso Hpublic.
    rewrite (topic_without_server cid sid uid w ch members so co) by done.
    assert (Hguard : truthy uid && bool_decide (or_empty uid ∈ split comma members) = false).
    { destruct (truthy uid) eqn:Hu; [|done]. simpl. apply bool_decide_eq_false_2.
      intros Hin. apply Hnotlisted. exists (or_empty uid), members.
      split_and!; try done; [by apply truthy_or_empty|].
      destruct uid as [u|]; [|done]. rewrite or_empty_Some.
      unfold truthy in Hu. intros ->. by rewrite bool_decide_eq_true_2 in Hu. }
    rewrite Hguard.
    replace (_calc_final_permissions [] so co) with (∅ : gset string);
      [by rewrite sorted_empty|].
    unfold _calc_final_permissions. rewrite Hpublic. simpl. set_solver.
Qed.
End overwrites_and_topics.

(** C5 as stated fails: a listed member who is not the owner and holds no
    server role, on a topic channel whose overwrites give ["@members"] the
    empty set, resolves to the empty list, which does not contain the topic
    member defaults. *)
Lemma topic_member_overwritten :
  let w := with_channels [("c1", muted_topic)] empty_world in
  let outcome := fetch_user_permissions (env := granting []) (Some "c1") None (Some "u2") w in
  channel_in_use w "c1" = Some muted_topic
  ∧ muted_topic !! "kind" = Some "topic"
  ∧ muted_topic !! "owner" ≠ Some "u2"
  ∧ "u2" ∈ split comma "u1,u2"
  ∧ outcome.1 = Ok []
  ∧ ¬ (∀ p, p ∈ DEFAULT_TOPIC_MEMBER_PERMISSIONS → p ∈ ([] : list string)).
Proof.
  split_and!; try by vm_compute.
  - compute_done.
  - intros Hall. specialize (Hall Permission.CHANNELS_VIEW (list_elem_of_here _ _)).
    by apply not_elem_of_nil in Hall.
Qed.

(** The owner u1, the member u2 and the stranger u3 on a topic channel
    without overwrites. *)
Lemma topic_owner_member_stranger_witness :
  let w := with_channels [("c1", plain_topic)] empty_world in
  let outcome uid := fetch_user_permissions (env := granting []) (Some "c1") None uid w in
  outcome (Some "u1") = (Ok CHANNEL_OWNER_PERMISSIONS, after_load w "c1")
  ∧ (∃ permissions, (outcome (Some "u2")).1 = Ok permissions
                    ∧ ∀ p, p ∈ DEFAULT_TOPIC_MEMBER_PERMISSIONS → p ∈ permissions)
  ∧ (outcome (Some "u3")).1 = Ok [].
Proof.
  intros w outcome.
  assert (Hcid : "c1" ≠ "") by discriminate.
  pose proof (λ uid, topic_owner_member_stranger (env := granting []) "c1" None uid w
                       plain_topic Hcid eq_refl eq_refl) as Htopic.
  split_and!.
  - by apply (Htopic (Some "u1")).
  - apply (Htopic (Some "u2")) with (so := ∅) (co := ∅); try done.
    exists "u2", "u1,u2". split_and!; try done. compute_done.
  - apply (Htopic (Some "u3")) with (members := "u1,u2") (so := ∅) (co := ∅); try done.
    + intros (u & members & [= <-] & _ & [= <-] & Hin). revert Hin. compute_done.
    + by intros [_ [=]].
Defined.

(** ** Section overwrites without a permissions field *)

(** C8. The channel side defaults as the claim says: channel c1, with no
    permissions field and no section field, resolves without error (its
    missing section field is not the empty string, so a section read with no
    id is still issued). The section side does not: for c2 the section
    record s1 comes with the cache snapshot, has no permissions field, and
    the decoder, handed a dict as the default, raises a type error. *)
Theorem section_without_permissions_raises :
  let member := Some "u2" in
  let on_c1 := fetch_user_permissions (env := granting []) (Some "c1") None member
                 sectioned_world in
  let on_c2 := fetch_user_permissions (env := granting []) (Some "c2") None member
                 sectioned_world in
  on_c1.1 = Ok (sorted (set_of DEFAULT_TOPIC_MEMBER_PERMISSIONS))
  ∧ reads on_c1.2 = [ReadSection None "c1"]
  ∧ cached_section sectioned_world "c2" = rec [("name", "general")]
  ∧ on_c2.1 = Err TypeError.
Proof. by vm_compute. Qed.

(** ** Further examples *)

(** With a server in play the roles derived for that server replace the
    [@members] seed: the listed member of the topic channel, holding no role
    in the server named by the caller, resolves to nothing, and a stranger
    holding a role there resolves to that role's permissions. *)
Example topic_seed_replaced_by_server_roles :
  (fetch_user_permissions (env := granting []) (Some "c1") (Some "s1") (Some "u2")
     topic_beside_server).1 = Ok []
  ∧ (fetch_user_permissions (env := granting [("everyone", DEFAULT_ROLE_PERMISSIONS)])
       (Some "c1") (Some "s1") (Some "u3") topic_beside_server).1
    = Ok ["messages.create"; "messages.list"].
Proof. by vm_compute. Qed.

(** The gate on a request for a dm channel: the ids come from the path, a
    member is denied a permission outside the dm defaults, allowed one
    inside them, and an anonymous caller fails in the resolver. *)
Example gate_on_dm_channel :
  _fetch_channel_from_request dm_request = Some "0123456789abcdef01234567"
  ∧ _fetch_server_from_request dm_request = None
  ∧ (check_request_permissions (env := granting []) dm_request
       [Permission.MESSAGES_LIST; Permission.CHANNELS_KICK] (Some {| pk := "u1" |})
       dm_world).1
    = Err (APIPermissionError
             (needed_vs_actual [Permission.MESSAGES_LIST; Permission.CHANNELS_KICK]
                DEFAULT_DM_MEMBER_PERMISSIONS))
  ∧ (check_request_permissions (env := granting []) dm_request
       [Permission.MESSAGES_LIST] (Some {| pk := "u1" |}) dm_world).1 = Ok ()
  ∧ (check_request_permissions (env := granting []) dm_request
       [Permission.MESSAGES_LIST] None dm_world).1
    = Err (APIPermissionError (message "user is not a member of DM channel")).
Proof. by vm_compute. Qed.

(** * Further properties *)

(** ** The ids in the request path *)

Lemma drop_prefix_spec (prefix s rest : string) :
  drop_prefix prefix s = Some rest ↔ s = prefix +:+ rest.
Proof.
  revert s. induction prefix as [|a prefix IH]; intros s; simpl.
  - split; [by intros [= ->]|by intros ->].
  - destruct s as [|b s]; [done|]. case_bool_decide as Hab.
    + subst b. rewrite IH. split; [by intros ->|by intros [= ->]].
    + split; [done|]. intros [= -> _]. done.
Qed.

Lemma string_app_cons (c : Ascii.ascii) (s1 s2 : string) :
  String c s1 +:+ s2 = String c (s1 +:+ s2).
Proof. reflexivity. Qed.

Lemma first_code_points_spec (n : nat) (s id : string) :
  first_code_points n s = Some id
  ↔ code_points id = n ∧ ∃ rest, s = id +:+ rest ∧ at_boundary rest = true.
Proof.
  split.
  - revert n id. induction s as [|c s IH]; intros n id; simpl.
    + destruct n; [|done]. intros [= <-]. split; [done|]. by exists "".
    + destruct (is_continuation c) eqn:Hc.
      * destruct (first_code_points n s) as [id'|] eqn:Hid'; [|done].
        intros [= <-]. destruct (IH n id' Hid') as (Hn & rest & -> & Hrest).
        split; [by rewrite <- Hn; simpl; rewrite Hc|]. by exists rest.
      * destruct n as [|n].
        { intros [= <-]. split; [done|]. exists (String c s). split; [done|].
          simpl. by rewrite Hc. }
        destruct (first_code_points n s) as [id'|] eqn:Hid'; [|done].
        intros [= <-]. destruct (IH n id' Hid') as (Hn & rest & -> & Hrest).
        split; [by rewrite <- Hn; simpl; rewrite Hc|]. by exists rest.
  - intros (Hn & rest & -> & Hrest). subst n.
    induction id as [|c id IH].
    + destruct rest as [|c rest]; [done|]. simpl in *.
      by destruct (is_continuation c).
    + rewrite string_app_cons. simpl.
      destruct (is_continuation c); simpl; by rewrite IH.
Qed.

(** X1. The path pattern: an id is found in the path exactly when the path
    is the prefix, then 24 characters (code points) none of which is a
    newline, then anything; the id is those 24 characters. *)
Theorem id_in_path_spec (prefix path id : string) :
  id_in_path prefix path = Some id
  ↔ code_points id = 24%nat ∧ no_newline id = true
    ∧ ∃ rest, path = prefix +:+ id +:+ rest ∧ at_boundary rest = true.
Proof.
  unfold id_in_path. split.
  - destruct (drop_prefix prefix path) as [after|] eqn:Hdrop; simpl; [|done].
    apply drop_prefix_spec in Hdrop.
    destruct (first_code_points 24 after) as [id'|] eqn:Hid'; simpl; [|done].
    destruct (no_newline id') eqn:Hnl; [|done]. intros [= <-].
    apply first_code_points_spec in Hid' as (Hlen & rest & -> & Hrest).
    split_and!; [done..|]. by exists rest.
  - intros (Hlen & Hnl & rest & -> & Hrest).
    assert (Hdrop : drop_prefix prefix (prefix +:+ id +:+ rest) = Some (id +:+ rest))
      by by apply drop_prefix_spec.
    assert (Hid : first_code_points 24 (id +:+ rest) = Some id).
    { apply first_code_points_spec. split; [done|]. by exists rest. }
    rewrite Hdrop. simpl. rewrite Hid. simpl. by rewrite Hnl.
Qed.

(** The pattern counts characters, not bytes: 24 letters with an accent make
    an id of 48 bytes, and 24 bytes of 12 such letters make none. *)
Example id_in_path_counts_code_points :
  let e := String (Ascii.ascii_of_nat 195) (String (Ascii.ascii_of_nat 169) "") in
  let e4 := e +:+ e +:+ e +:+ e in
  let e12 := e4 +:+ e4 +:+ e4 in
  id_in_path "/channels/" ("/channels/" +:+ e12 +:+ e12 +:+ "/typing") = Some (e12 +:+ e12)
  ∧ String.length (e12 +:+ e12) = 48%nat
  ∧ id_in_path "/channels/" ("/channels/" +:+ e12) = None.
Proof. by vm_compute. Qed.

(** ** The ids in the request body *)

Lemma empty_dict_spec {V} (d : gmap string V) : empty_dict d = true ↔ d = ∅.
Proof.
  unfold empty_dict. rewrite <- map_to_list_empty_iff.
  by destruct (map_to_list d).
Qed.

Lemma first_truthy_spec {V} `{PyBool V} (fields : list string) (d : gmap string V) (v : V) :
  first_truthy fields d = Some v
  ↔ py_bool v = true ∧ ∃ before field after,
      fields = (before ++ field :: after)%list ∧ d !! field = Some v
      ∧ ∀ g v', g ∈ before → d !! g = Some v' → py_bool v' = false.
Proof.
  induction fields as [|f fields IH]; simpl.
  - split; [done|]. intros (_ & [|??] & ? & ? & ? & _); done.
  - destruct (d !! f) as [x|] eqn:Hf; [destruct (py_bool x) eqn:Hx|].
    + split.
      * intros [= <-]. split; [done|].
        exists [], f, fields. split_and!; [done..|]. by intros g v' ?%not_elem_of_nil.
      * intros (Hv & before & field & after & Heq & Hfield & Hbefore).
        destruct before as [|g before]; simplify_eq/=; [done|].
        rewrite (Hbefore g x) in Hx; [done|apply list_elem_of_here|done].
    + rewrite IH. split.
      * intros (Hv & before & field & after & -> & Hfield & Hbefore).
        split; [done|]. exists (f :: before), field, after. split_and!; [done..|].
        intros g v' [->|Hg]%elem_of_cons Hg'; [by simplify_eq|by eapply Hbefore].
      * intros (Hv & before & field & after & Heq & Hfield & Hbefore).
        split; [done|]. destruct before as [|g before]; simplify_eq/=; [congruence|].
        exists before, field, after. split_and!; [done..|].
        intros g' v' Hg'. apply Hbefore. by apply list_elem_of_further.
    + rewrite IH. split.
      * intros (Hv & before & field & after & -> & Hfield & Hbefore).
        split; [done|]. exists (f :: before), field, after. split_and!; [done..|].
        intros g v' [->|Hg]%elem_of_cons Hg'; [by simplify_eq|by eapply Hbefore].
      * intros (Hv & before & field & after & Heq & Hfield & Hbefore).
        split; [done|]. destruct before as [|g before]; simplify_eq/=.
        exists before, field, after. split_and!; [done..|].
        intros g' v' Hg'. apply Hbefore. by apply list_elem_of_further.
Qed.

(** X2. The body lookup returns the value of the first of the given fields,
    in the order given, whose value in the decoded object is truthy,
    whatever the type of the values; it returns [None] for a body that does
    not decode, is not an object, or has no such field. *)
Theorem fetch_fields_from_request_body_spec {V} `{PyBool V} (fields : list string)
    (request : RequestOf V) (v : V) :
  _fetch_fields_from_request_body fields request = Some v
  ↔ py_bool v = true ∧ ∃ d before field after,
      body request = JsonObject d
      ∧ fields = (before ++ field :: after)%list ∧ d !! field = Some v
      ∧ ∀ g v', g ∈ before → d !! g = Some v' → py_bool v' = false.
Proof.
  unfold _fetch_fields_from_request_body.
  destruct (body request) as [|d|] eqn:Hbody.
  - split; [done|]. by intros (_ & ? & ? & ? & ? & ? & _).
  - destruct (empty_dict d) eqn:Hd.
    + split; [done|].
      intros (Hv & d' & before & field & after & [= <-] & _ & Hfield & _).
      apply empty_dict_spec in Hd. subst d. by rewrite lookup_empty in Hfield.
    + rewrite first_truthy_spec. split.
      * intros (Hv & before & field & after & H1 & H2 & H3).
        split; [done|]. by exists d, before, field, after.
      * intros (Hv & d' & before & field & after & [= <-] & H1 & H2 & H3).
        split; [done|]. by exists before, field, after.
  - split; [done|]. by intros (_ & ? & ? & ? & ? & ? & _).
Qed.

Lemma id_in_path_truthy (prefix path id : string) :
  id_in_path prefix path = Some id → id ≠ "".
Proof.
  unfold id_in_path. destruct (drop_prefix prefix path) as [after|]; simpl; [|done].
  destruct (first_code_points 24 after) as [id'|] eqn:Hid'; simpl; [|done].
  destruct (no_newline id'); [|done]. intros [= <-] ->.
  by apply first_code_points_spec in Hid' as [? _].
Qed.

Lemma truthy_Some_inv (v : string) : truthy (Some v) = true → v ≠ "".
Proof. unfold truthy. intros Hv ->. by rewrite bool_decide_eq_true_2 in Hv. Qed.

(** X3. Both request extractors prefer the path to the body (an id matched
    in the path is returned whatever the body holds), and an id they return
    is never the empty string, so that "no id" is always [None]. *)
Theorem request_extractors_path_first_never_empty (request : Request) :
  (∀ id, id_in_path "/channels/" (path request) = Some id →
         _fetch_channel_from_request request = Some id)
  ∧ (∀ id, id_in_path "/servers/" (path request) = Some id →
           _fetch_server_from_request request = Some id)
  ∧ (∀ id, _fetch_channel_from_request request = Some id → id ≠ "")
  ∧ (∀ id, _fetch_server_from_request request = Some id → id ≠ "").
Proof.
  unfold _fetch_channel_from_request, _fetch_server_from_request. split_and!.
  - by intros id ->.
  - by intros id ->.
  - intros id. destruct (id_in_path _ _) as [id'|] eqn:Hpath.
    + intros [= <-]. by eapply id_in_path_truthy.
    + destruct (truthy _) eqn:Hv; [|done]. intros Hid. rewrite Hid in Hv.
      by apply truthy_Some_inv.
  - intros id. destruct (id_in_path _ _) as [id'|] eqn:Hpath.
    + intros [= <-]. by eapply id_in_path_truthy.
    + destruct (truthy _) eqn:Hv; [|done]. intros Hid. rewrite Hid in Hv.
      by apply truthy_Some_inv.
Qed.

(** A path carrying a channel id next to a body naming another one. *)
Lemma request_extractors_path_first_never_empty_witness :
  let request := {| path := "/channels/0123456789abcdef01234567/typing";
                    body := JsonObject (rec [("channel", "other"); ("server_id", "s1")]) |} in
  _fetch_channel_from_request request = Some "0123456789abcdef01234567"
  ∧ "s1" ≠ "".
Proof.
  intros request.
  destruct (request_extractors_path_first_never_empty request) as (Hpath & _ & _ & Hserver).
  split; [by apply Hpath|by apply Hserver].
Defined.

(** ** The members field *)

Lemma string_app_assoc (s1 s2 s3 : string) : (s1 +:+ s2) +:+ s3 = s1 +:+ (s2 +:+ s3).
Proof. induction s1 as [|c s1 IH]; [done|]. by rewrite !string_app_cons, IH. Qed.

Lemma string_app_nil_r (s : string) : s +:+ "" = s.
Proof. induction s as [|c s IH]; [done|]. by rewrite string_app_cons, IH. Qed.

Lemma rev_app_app (s1 s2 : string) : String.rev_app s1 s2 = String.rev_app s1 "" +:+ s2.
Proof.
  revert s2. induction s1 as [|c s1 IH]; intros s2; simpl; [done|].
  rewrite IH, (IH (String c "")). by rewrite string_app_assoc.
Qed.

Lemma rev_String (c : Ascii.ascii) (s : string) :
  String.rev (String c s) = String.rev s +:+ String c "".
Proof. unfold String.rev. simpl. apply rev_app_app. Qed.

Lemma split_go_nonempty (cur s : string) : split_go comma cur s ≠ [].
Proof.
  revert cur. induction s as [|c s IH]; intros cur; simpl; [done|].
  case_bool_decide; [done|apply IH].
Qed.

Lemma split_go_join (cur s : string) :
  join_commas (split_go comma cur s) = String.rev cur +:+ s.
Proof.
  revert cur. induction s as [|c s IH]; intros cur; simpl.
  - by rewrite string_app_nil_r.
  - case_bool_decide as Hc.
    + subst c. unfold join_commas in *. simpl.
      specialize (IH ""). destruct (split_go comma "" s) as [|x l] eqn:Hsplit.
      { by apply split_go_nonempty in Hsplit. }
      rewrite IH. done.
    + rewrite IH, rev_String, string_app_assoc. done.
Qed.

Lemma has_char_app (c : Ascii.ascii) (s1 s2 : string) :
  has_char c (s1 +:+ s2) = has_char c s1 || has_char c s2.
Proof. induction s1 as [|c' s1 IH]; simpl; [done|]. by rewrite IH, orb_assoc. Qed.

Lemma has_char_rev (c : Ascii.ascii) (s : string) : has_char c (String.rev s) = has_char c s.
Proof.
  induction s as [|c' s IH]; [done|].
  rewrite rev_String, has_char_app, IH. simpl. rewrite orb_false_r. apply orb_comm.
Qed.

Lemma split_go_no_comma (cur s x : string) :
  has_char comma cur = false → x ∈ split_go comma cur s → has_char comma x = false.
Proof.
  revert cur. induction s as [|c s IH]; intros cur Hcur; simpl.
  - intros ->%list_elem_of_singleton. by rewrite has_char_rev.
  - case_bool_decide as Hc.
    + intros [->|Hx]%elem_of_cons; [by rewrite has_char_rev|]. by apply (IH "").
    + apply IH. simpl. by rewrite bool_decide_eq_false_2.
Qed.

(** X4. Splitting the members field at the commas loses nothing: joining the
    parts with commas gives the field back, there is always at least one
    part, and no part contains a comma. *)
Theorem split_members_round_trip (members : string) :
  join_commas (split comma members) = members
  ∧ split comma members ≠ []
  ∧ ∀ x, x ∈ split comma members → has_char comma x = false.
Proof.
  unfold split. split_and!.
  - by rewrite split_go_join.
  - apply split_go_nonempty.
  - intros x. by apply split_go_no_comma.
Qed.

(** ** More on the overwrite resolution algorithm *)

(** X5. The final set of two lists of roles put together is the union of
    the final sets of each, so the result only grows with the roles held:
    roles that are all among those of another user resolve to a subset. *)
Theorem calc_final_permissions_app (roles1 roles2 : roles) (so co : overwrites) :
  _calc_final_permissions (roles1 ++ roles2) so co
  = _calc_final_permissions roles1 so co ∪ _calc_final_permissions roles2 so co
  ∧ ((∀ b, b ∈ roles1 → b ∈ roles2) →
     _calc_final_permissions roles1 so co ⊆ _calc_final_permissions roles2 so co).
Proof.
  split.
  - rewrite !calc_final_permissions_unfold. unfold union_of_tiers.
    rewrite fmap_app, union_list_app_L. set_solver.
  - intros Hsub p. rewrite !calc_final_permissions_unfold, !elem_of_union_of_tiers.
    intros [(r & d & Hb & Hp)|Hpublic]; [left|by right].
    exists r, d. split; [by apply Hsub|done].
Qed.

Lemma calc_final_permissions_app_witness :
  let member := [("member", DEFAULT_ROLE_PERMISSIONS)] in
  let both := [("admin", [Permission.CHANNELS_KICK]); ("member", DEFAULT_ROLE_PERMISSIONS)] in
  _calc_final_permissions member ∅ ∅ ⊆ _calc_final_permissions both ∅ ∅.
Proof.
  intros member both.
  apply (proj2 (calc_final_permissions_app member both ∅ ∅)).
  intros b ->%list_elem_of_singleton. apply list_elem_of_further, list_elem_of_here.
Defined.

(** X6. The algorithm reads the overwrite maps only at the role-ids the user
    holds and, in the channel map, at ["@public"]: two pairs of maps that
    agree there (the section maps only where the channel map is silent)
    give the same final set. Entries for other role-ids, and a section
    entry for ["@public"] when that role is not held, never matter. *)
Theorem calc_final_permissions_reads_held_roles_only (user_roles : roles)
    (so so' co co' : overwrites) :
  (∀ r d, (r, d) ∈ user_roles →
          co !! r = co' !! r ∧ (co !! r = None → so !! r = so' !! r)) →
  co !! "@public" = co' !! "@public" →
  _calc_final_permissions user_roles so co = _calc_final_permissions user_roles so' co'.
Proof.
  intros Hagree Hpublic. rewrite !calc_final_permissions_unfold.
  apply set_eq. intros p. rewrite !elem_of_union_of_tiers, Hpublic.
  assert (Htier : ∀ r d, (r, d) ∈ user_roles → tier_of so co r d = tier_of so' co' r d).
  { intros r d Hb. destruct (Hagree r d Hb) as [Hco Hso]. unfold tier_of.
    rewrite <- Hco. destruct (co !! r); [done|]. by rewrite <- Hso. }
  split; (intros [(r & d & Hb & Hp)|?]; [left|by right]); exists r, d;
    (split; [done|]); [by rewrite <- Htier|by rewrite Htier].
Qed.

Lemma calc_final_permissions_reads_held_roles_only_witness :
  let user_roles := [("member", DEFAULT_ROLE_PERMISSIONS)] in
  let co : overwrites := {[ "admin" := [Permission.CHANNELS_KICK] ]} in
  let so : overwrites := {[ "@public" := [Permission.CHANNELS_VIEW] ]} in
  _calc_final_permissions user_roles so co = _calc_final_permissions user_roles ∅ ∅.
Proof.
  intros user_roles co so.
  apply (calc_final_permissions_reads_held_roles_only user_roles so ∅ co ∅); [|done].
  intros r d [= -> ->]%list_elem_of_singleton. by split.
Defined.

(** The members of a dm channel, parsed. *)
Lemma split_members_round_trip_witness :
  join_commas (split comma "u1,u2") = "u1,u2" ∧ has_char comma "u2" = false.
Proof.
  destruct (split_members_round_trip "u1,u2") as (Hjoin & _ & Hparts).
  split; [exact Hjoin|]. apply Hparts. compute_done.
Defined.

(** ** Shapes of the resolver's outcomes *)

Lemma returns_ret {A} (P : A → Prop) (a : A) : P a → returns P (mret a).
Proof. intros Ha w a' [= <-]. done. Qed.

Lemma returns_raise {A} (P : A → Prop) (e : exn) : returns P (raise e).
Proof. by intros w a. Qed.

Lemma returns_bind {A B} (Q : A → Prop) (P : B → Prop) (m : M A) (k : A → M B) :
  returns Q m → (∀ a, Q a → returns P (k a)) → returns P (m ≫= k).
Proof.
  intros Hm Hk w b. rewrite bind_eq. specialize (Hm w).
  destruct (m w) as [[a|e] w1]; simpl in *; [|done].
  by apply Hk, Hm.
Qed.

Lemma returns_any {A} (m : M A) : returns (λ _, True) m.
Proof. by intros w a. Qed.

Lemma fails_only_ret {A} (P : exn → Prop) (a : A) : fails_only P (mret a).
Proof. by intros w e. Qed.

Lemma fails_only_raise {A} (P : exn → Prop) (e : exn) : P e → fails_only (A := A) P (raise e).
Proof. intros He w e' [= <-]. done. Qed.

Lemma fails_only_bind {A B} (P : exn → Prop) (m : M A) (k : A → M B) :
  fails_only P m → (∀ a, fails_only P (k a)) → fails_only P (m ≫= k).
Proof.
  intros Hm Hk w e. rewrite bind_eq. specialize (Hm w).
  destruct (m w) as [[a|e'] w1]; simpl in *.
  - apply Hk.
  - intros [= <-]. by apply Hm.
Qed.

Lemma fails_only_lift {A} (P : exn → Prop) (r : result A) :
  (∀ e, r = Err e → P e) → fails_only P (lift r).
Proof. intros Hr w e. apply Hr. Qed.

Lemma fetch_and_cache_server_ok (sid : string) (w : World) :
  ∃ r, (fetch_and_cache_server sid w).1 = Ok r.
Proof. unfold fetch_and_cache_server. simpl. destruct (servers w !! sid); by eexists. Qed.

Lemma fetch_and_cache_section_ok (sid : option string) (cid : string) (w : World) :
  ∃ r, (fetch_and_cache_section sid cid w).1 = Ok r.
Proof. unfold fetch_and_cache_section. simpl. destruct (sid ≫= _); by eexists. Qed.

Lemma fetch_and_cache_user_ok (uid : string) (sid : option string) (w : World) :
  ∃ r, (fetch_and_cache_user uid sid w).1 = Ok r.
Proof. unfold fetch_and_cache_user. simpl. destruct (sid ≫= _); by eexists. Qed.

Lemma fails_only_fetch_and_cache_server (P : exn → Prop) (sid : string) :
  fails_only P (fetch_and_cache_server sid).
Proof. intros w e He. destruct (fetch_and_cache_server_ok sid w) as [r Hr]. congruence. Qed.

Lemma fails_only_fetch_and_cache_section (P : exn → Prop) (sid : option string) (cid : string) :
  fails_only P (fetch_and_cache_section sid cid).
Proof. intros w e He. destruct (fetch_and_cache_section_ok sid cid w) as [r Hr]. congruence. Qed.

Lemma fails_only_fetch_and_cache_user (P : exn → Prop) (uid : string) (sid : option string) :
  fails_only P (fetch_and_cache_user uid sid).
Proof. intros w e He. destruct (fetch_and_cache_user_ok uid sid w) as [r Hr]. congruence. Qed.

Ltac shape :=
  repeat first
    [ apply fails_only_ret
    | apply fails_only_fetch_and_cache_server
    | apply fails_only_fetch_and_cache_section
    | apply fails_only_fetch_and_cache_user
    | apply fails_only_bind; [|intros ?]
    | match goal with
      | |- fails_only _ (if ?b then _ else _) => destruct b
      | |- fails_only _ (match ?x with _ => _ end) => destruct x
      | |- fails_only _ (let '_ := ?x in _) => destruct x
      end ].

Lemma NoDup_sorted (s : gset string) : NoDup (sorted s).
Proof. unfold sorted. rewrite merge_sort_Permutation. apply NoDup_elements. Qed.

Lemma StronglySorted_sorted (s : gset string) : StronglySorted String.le (sorted s).
Proof. unfold sorted. apply StronglySorted_merge_sort; apply _. Qed.

Lemma shape_sorted (s : gset string) : NoDup (sorted s) ∧ constant_or_ascending (sorted s).
Proof.
  split; [apply NoDup_sorted|]. do 3 right. apply StronglySorted_sorted.
Qed.

Lemma NoDup_catalog : NoDup Permission.values.
Proof. compute_done. Qed.

Lemma NoDup_dm_defaults : NoDup DEFAULT_DM_MEMBER_PERMISSIONS.
Proof. compute_done. Qed.

Lemma NoDup_user_defaults : NoDup DEFAULT_USER_PERMISSIONS.
Proof. compute_done. Qed.

Section shapes.
Context {env : Collaborators}.

Lemma loads_decode_failure (x : option string) (e : exn) :
  loads x = Err e → is_decode_failure e.
Proof.
  unfold loads, is_decode_failure. destruct x as [s|]; [|intros [= <-]; by left].
  destruct (json_loads s); [done|]. intros [= <-]. by right.
Qed.

Lemma fails_only_roles_and_overwrites (cid sid uid : option string)
    (ch user server section : record) (user_roles : roles) :
  fails_only is_decode_failure
    (roles_and_overwrites cid sid uid ch user server section user_roles).
Proof.
  unfold roles_and_overwrites, server_context, roles_in_server, load_overwrites.
  shape; apply fails_only_lift.
  all: unfold channel_overwrites_of, section_overwrites_of; intros e;
    try (destruct (nonempty _); [|done]); apply loads_decode_failure.
Qed.

(** X8. Without a channel id the resolver never answers NotFound or
    Forbidden: the 404 and the two permission errors are raised only in the
    block under [if channel_id:], so whatever fails here fails otherwise. *)
Theorem no_channel_id_never_not_found_nor_forbidden (channel_id sid uid : option string)
    (w : World) (e : exn) :
  truthy channel_id = false →
  (fetch_user_permissions channel_id sid uid w).1 = Err e →
  is_not_found e = false ∧ is_forbidden e = false.
Proof.
  intros Hcid Hfail.
  assert (Hdecode : is_decode_failure e).
  { revert Hfail. unfold fetch_user_permissions. rewrite Hcid. cbn [negb andb].
    destruct (negb (truthy sid)); [done|].
    rewrite bind_eq, snapshot_eq. cbn beta iota.
    unfold channel_context. rewrite Hcid, bind_eq, ret_eq.
    apply fails_only_roles_and_overwrites. }
  by destruct Hdecode as [-> | ->].
Qed.

Lemma returns_roles_and_overwrites (cid sid uid : option string)
    (ch user server section : record) (user_roles : roles) :
  returns (λ ps, NoDup ps ∧ constant_or_ascending ps)
    (roles_and_overwrites cid sid uid ch user server section user_roles).
Proof.
  unfold roles_and_overwrites, server_context.
  apply returns_bind with (Q := λ r, match r with
                                     | Return ps => ps = SERVER_OWNER_PERMISSIONS
                                     | Continue _ => True
                                     end).
  - destruct (truthy sid && negb (nonempty server)).
    + apply returns_bind with (Q := λ _, True); [apply returns_any|]. intros srv _.
      destruct (truthy uid && bool_decide (srv !! "owner" = uid)).
      * by apply returns_ret.
      * apply returns_bind with (Q := λ _, True); [apply returns_any|].
        intros ? _. by apply returns_ret.
    + apply returns_bind with (Q := λ _, True); [apply returns_any|].
      intros ? _. by apply returns_ret.
  - intros [ps|user_roles'] Hps.
    + subst ps. apply returns_ret. split; [apply NoDup_catalog|]. by do 2 right; left.
    + apply returns_bind with (Q := λ _, True); [apply returns_any|].
      intros [so co] _. apply returns_ret, shape_sorted.
Qed.

Lemma returns_by_kind (sid uid : option string) (ch : record) :
  returns (λ r, match r with
                | Return ps => NoDup ps ∧ constant_or_ascending ps
                | Continue _ => True
                end) (by_kind sid uid ch).
Proof.
  unfold by_kind.
  destruct (bool_decide (ch !! "kind" = Some "dm")).
  { apply returns_bind with (Q := λ _, True); [apply returns_any|]. intros members _.
    destruct (negb (truthy uid) || negb (bool_decide (or_empty uid ∈ members)));
      [apply returns_raise|].
    apply returns_ret. split; [apply NoDup_dm_defaults|]. by right; left. }
  destruct (bool_decide (ch !! "kind" = Some "topic")).
  { destruct (truthy uid && bool_decide (ch !! "owner" = uid)).
    - apply returns_ret. split; [apply NoDup_catalog|]. by do 2 right; left.
    - apply returns_bind with (Q := λ _, True); [apply returns_any|]. intros members _.
      destruct (truthy uid && bool_decide (or_empty uid ∈ members)); by apply returns_ret. }
  destruct (bool_decide (ch !! "kind" = Some "server")); [by apply returns_ret|].
  apply returns_raise.
Qed.

(** X9. Every list the resolver returns is free of duplicates, and it is
    either one of the catalog constants in their declaration order (the
    context-less default, the dm member defaults, the full catalog of an
    owner) or, when it comes out of the algorithm, in ascending order. *)
Theorem resolved_permissions_shape (cid sid uid : option string) (w : World)
    (permissions : list string) :
  (fetch_user_permissions cid sid uid w).1 = Ok permissions →
  NoDup permissions ∧ constant_or_ascending permissions.
Proof.
  revert w permissions.
  change (returns (λ ps, NoDup ps ∧ constant_or_ascending ps)
            (fetch_user_permissions cid sid uid)).
  unfold fetch_user_permissions.
  destruct (negb (truthy cid) && negb (truthy sid)).
  { apply returns_ret. split; [apply NoDup_user_defaults|]. by left. }
  apply returns_bind with (Q := λ _, True); [apply returns_any|].
  intros [[[channel user] server] section] _.
  apply returns_bind with (Q := λ r, match r with
                                     | Return ps => NoDup ps ∧ constant_or_ascending ps
                                     | Continue _ => True
                                     end).
  - unfold channel_context. destruct (truthy cid); [|by apply returns_ret].
    apply returns_bind with (Q := λ _, True); [apply returns_any|]. intros ch _.
    eapply returns_bind; [apply returns_by_kind|].
    intros [ps|[sid' user_roles]] Hps; by apply returns_ret.
  - intros [ps|[[ch sid'] user_roles]] Hps; [by apply returns_ret|].
    apply returns_roles_and_overwrites.
Qed.
End shapes.

(** The member u2 of a cached dm channel gets the dm defaults, which are not
    in ascending order. *)
Lemma resolved_permissions_shape_witness :
  NoDup DEFAULT_DM_MEMBER_PERMISSIONS ∧ constant_or_ascending DEFAULT_DM_MEMBER_PERMISSIONS.
Proof.
  exact (resolved_permissions_shape (env := granting [])
           (Some "0123456789abcdef01234567") None (Some "u2") dm_world
           DEFAULT_DM_MEMBER_PERMISSIONS eq_refl).
Defined.

(** A server id alone, with a cached channel entry under the name the
    resolver asks for and a section entry that has no permissions field. *)
Lemma no_channel_id_never_not_found_nor_forbidden_witness :
  is_not_found TypeError = false ∧ is_forbidden TypeError = false.
Proof.
  exact (no_channel_id_never_not_found_nor_forbidden (env := granting []) None (Some "s1")
           (Some "u1")
           (with_cache [("channel:None", rec [("section", "s1")]);
                        ("section:s1", rec [("name", "general")])] empty_world)
           TypeError eq_refl eq_refl).
Defined.

(** ** Callers without an id, anonymous callers, and ignored arguments *)

Lemma returns_lift {A} (P : A → Prop) (r : result A) :
  (∀ a, r = Ok a → P a) → returns P (lift r).
Proof. intros Hr w a. apply Hr. Qed.

Lemma calc_final_permissions_no_roles (so co : overwrites) :
  _calc_final_permissions [] so co = set_of (default [] (co !! "@public")).
Proof. unfold _calc_final_permissions. simpl. set_solver. Qed.

Section special_callers.
Context {env : Collaborators}.

Lemma load_overwrites_empty (cid : option string) (w : World) :
  truthy cid = false → load_overwrites cid ∅ ∅ w = (Ok (∅, ∅), w).
Proof.
  intros Hcid. unfold load_overwrites.
  rewrite lift_bind_eq, (channel_overwrites_default ∅ (lookup_empty _)).
  rewrite Hcid, andb_false_r, bind_eq, ret_eq, lift_bind_eq.
  unfold section_overwrites_of. by rewrite nonempty_empty.
Qed.

Lemma never_fails_without_channel (cid sid uid : option string) (user server : record)
    (user_roles : roles) :
  truthy cid = false →
  fails_only (λ _, False) (roles_and_overwrites cid sid uid ∅ user server ∅ user_roles).
Proof.
  intros Hcid. unfold roles_and_overwrites.
  apply fails_only_bind.
  - unfold server_context, roles_in_server. shape.
  - intros [ps|user_roles']; [apply fails_only_ret|].
    intros w e. by rewrite bind_eq, (load_overwrites_empty cid w Hcid).
Qed.

(** X10. With no channel id, and no cache entry under the channel key the
    snapshot then asks for, the resolver always returns a list: an unknown
    server id, a user without roles or an anonymous caller is not an
    error. *)
Theorem no_channel_id_never_fails (channel_id sid uid : option string) (w : World) :
  truthy channel_id = false →
  cache w !! channel_key (py_str channel_id) = None →
  ∃ permissions, (fetch_user_permissions channel_id sid uid w).1 = Ok permissions.
Proof.
  intros Hcid Hcache. unfold fetch_user_permissions. rewrite Hcid. cbn [negb andb].
  destruct (negb (truthy sid)); [by eexists|].
  rewrite bind_eq, snapshot_eq. cbn beta iota.
  unfold channel_context. rewrite Hcid, bind_eq, ret_eq.
  assert (Hchannel : cached_channel w (py_str channel_id) = ∅).
  { unfold cached_channel, HGETALL. by rewrite Hcache. }
  assert (Hserver : cached_server w (py_str channel_id) = ∅).
  { unfold cached_server, HGET. by rewrite Hcache. }
  assert (Hsection : cached_section w (py_str channel_id) = ∅).
  { unfold cached_section, HGET. by rewrite Hcache. }
  rewrite Hchannel, Hserver, Hsection.
  pose proof (never_fails_without_channel channel_id sid uid
                (cached_user w (or_empty uid)) ∅ [] Hcid w) as Hnever.
  destruct (roles_and_overwrites _ _ _ _ _ _ _ _ w) as [[ps|e] w1]; [by eexists|].
  destruct (Hnever e eq_refl).
Qed.

Lemma returns_by_kind_anonymous (sid uid : option string) (ch : record) :
  truthy uid = false →
  returns (λ r, ∃ sid', r = Continue (sid', [])) (by_kind sid uid ch).
Proof.
  intros Huid. unfold by_kind. rewrite Huid. cbn [negb andb orb].
  destruct (bool_decide (ch !! "kind" = Some "dm")).
  { apply returns_bind with (Q := λ _, True); [apply returns_any|]. intros ? _.
    apply returns_raise. }
  destruct (bool_decide (ch !! "kind" = Some "topic")).
  { apply returns_bind with (Q := λ _, True); [apply returns_any|]. intros ? _.
    apply returns_ret. by eexists. }
  destruct (bool_decide (ch !! "kind" = Some "server")); [|apply returns_raise].
  apply returns_ret. by eexists.
Qed.

Lemma returns_roles_and_overwrites_anonymous (cid sid uid : option string)
    (ch user server section : record) :
  truthy uid = false →
  returns (λ ps, ∃ co, channel_overwrites_of ch = Ok co
                       ∧ ps = sorted (set_of (default [] (co !! "@public"))))
    (roles_and_overwrites cid sid uid ch user server section []).
Proof.
  intros Huid. unfold roles_and_overwrites.
  apply returns_bind with (Q := λ r, r = Continue []).
  - unfold server_context, roles_in_server. rewrite Huid, !andb_false_r. cbn [andb].
    destruct (truthy sid && negb (nonempty server)).
    + apply returns_bind with (Q := λ _, True); [apply returns_any|]. intros srv _.
      rewrite andb_false_r.
      apply returns_bind with (Q := λ r, r = []); [by apply returns_ret|].
      intros r ->. by apply returns_ret.
    + apply returns_bind with (Q := λ r, r = []); [by apply returns_ret|].
      intros r ->. by apply returns_ret.
  - intros r ->.
    apply returns_bind with (Q := λ oo, channel_overwrites_of ch = Ok oo.2).
    + unfold load_overwrites.
      apply returns_bind with (Q := λ co, channel_overwrites_of ch = Ok co);
        [by apply returns_lift|].
      intros co Hco.
      apply returns_bind with (Q := λ _, True); [apply returns_any|]. intros sec _.
      apply returns_bind with (Q := λ _, True); [apply returns_any|]. intros so _.
      by apply returns_ret.
    + intros [so co] Hco. apply returns_ret. exists co. split; [done|].
      by rewrite calc_final_permissions_no_roles.
Qed.

(** X11. An anonymous caller (no user id, or an empty one) who gets a list
    for a channel gets exactly the channel's ["@public"] overwrite, sorted:
    never the permissions of an owner, of a member or of a role. *)
Theorem anonymous_gets_public_overwrite_only (cid : string) (sid uid : option string)
    (w : World) (ch : record) (permissions : list string) :
  cid ≠ "" → channel_in_use w cid = Some ch → ch ≠ ∅ → truthy uid = false →
  (fetch_user_permissions (Some cid) sid uid w).1 = Ok permissions →
  ∃ co, channel_overwrites_of ch = Ok co
        ∧ permissions = sorted (set_of (default [] (co !! "@public")))
        ∧ ∀ p, p ∈ permissions ↔ p ∈ default [] (co !! "@public").
Proof.
  intros Hcid Hch Hne Huid.
  rewrite (fetch_user_permissions_on_channel cid sid uid w ch Hcid Hch Hne).
  intros Hok.
  assert (Hshape : ∃ co, channel_overwrites_of ch = Ok co
                         ∧ permissions = sorted (set_of (default [] (co !! "@public")))).
  { revert Hok. generalize (after_load w cid) permissions.
    apply returns_bind with (Q := λ r, ∃ sid', r = Continue (sid', []));
      [by apply returns_by_kind_anonymous|].
    intros r [sid' ->]. by apply returns_roles_and_overwrites_anonymous. }
  destruct Hshape as (co & Hco & ->). exists co. split_and!; [done..|].
  intros p. rewrite elem_of_sorted. unfold set_of. by rewrite elem_of_list_to_set.
Qed.

Lemma by_kind_ignores_server_id (sid sid' uid : option string) (ch : record) :
  ch !! "kind" = Some "dm" ∨ ch !! "kind" = Some "server" →
  by_kind sid uid ch = by_kind sid' uid ch.
Proof.
  intros [Hkind|Hkind]; unfold by_kind; rewrite Hkind.
  - by rewrite bool_decide_eq_true_2.
  - rewrite !bool_decide_eq_false_2 by done. by rewrite bool_decide_eq_true_2.
Qed.

(** X12. On a dm channel and on a server channel the server id passed by
    the caller plays no role: the outcome and the final state of cache and
    storage are the same for any two values of it. *)
Theorem caller_server_id_ignored (cid : string) (sid sid' uid : option string)
    (w : World) (ch : record) :
  cid ≠ "" → channel_in_use w cid = Some ch →
  ch !! "kind" = Some "dm" ∨ ch !! "kind" = Some "server" →
  fetch_user_permissions (Some cid) sid uid w = fetch_user_permissions (Some cid) sid' uid w.
Proof.
  intros Hcid Hch Hkind.
  assert (Hne : ch ≠ ∅) by (destruct Hkind; by eapply kind_nonempty).
  rewrite !(fetch_user_permissions_on_channel cid _ uid w ch Hcid Hch Hne).
  by rewrite (by_kind_ignores_server_id sid sid' uid ch Hkind).
Qed.

(** X13. On a topic channel the owner is recognised before the members are
    read: for a record without a members field the owner still gets the
    channel owner permissions, and every other caller, anonymous ones
    included, runs into the attribute error of splitting a list. *)
Theorem topic_without_members_field (cid : string) (sid uid : option string) (w : World)
    (ch : record) :
  cid ≠ "" → channel_in_use w cid = Some ch →
  ch !! "kind" = Some "topic" → ch !! "members" = None →
  fetch_user_permissions (Some cid) sid uid w
  = (if truthy uid && bool_decide (ch !! "owner" = uid)
     then Ok CHANNEL_OWNER_PERMISSIONS else Err AttributeError, after_load w cid).
Proof.
  intros Hcid Hch Hkind Hmembers.
  assert (Hne : ch ≠ ∅) by by eapply kind_nonempty.
  apply (fetch_user_permissions_stops cid sid uid w ch); try done.
  intros w1. unfold by_kind, members_of. rewrite Hkind, Hmembers.
  rewrite bool_decide_eq_false_2 by done. rewrite bool_decide_eq_true_2 by done.
  by destruct (truthy uid && bool_decide (ch !! "owner" = uid)).
Qed.

(** X14. A request that carries no id (none in the path, none in the body)
    is checked against the context-less default alone, for every user and
    without touching cache or storage: the gate lets it pass exactly when
    every required permission is the permission to create channels. *)
Theorem gate_without_ids (request : Request) (R : list string)
    (current_user : option User) (w : World) :
  _fetch_channel_from_request request = None →
  _fetch_server_from_request request = None →
  let gate := check_request_permissions request R current_user w in
  (gate = (Ok (), w) ↔ ∀ p, p ∈ R → p = Permission.CHANNELS_CREATE)
  ∧ (gate = (Err (APIPermissionError (needed_vs_actual R DEFAULT_USER_PERMISSIONS)), w)
     ↔ ∃ p, p ∈ R ∧ p ≠ Permission.CHANNELS_CREATE).
Proof.
  intros Hchannel Hserver gate. subst gate. unfold check_request_permissions.
  rewrite Hchannel, Hserver, bind_eq.
  change (fetch_user_permissions None None (pk <$> current_user) w)
    with (Ok DEFAULT_USER_PERMISSIONS, w).
  cbn beta iota.
  destruct (forallb _ R) eqn:Hall; cbn [negb].
  - pose proof (proj1 (all_held_spec R _) Hall) as Hheld. split.
    + split; [|done]. intros _ p Hp. by apply Hheld, list_elem_of_singleton in Hp.
    + split; [done|]. intros (p & Hp & Hne). by apply Hheld, list_elem_of_singleton in Hp.
  - pose proof (proj1 (some_missing_spec R _) Hall) as (p & Hp & Hmiss). split.
    + split; [done|]. intros Hheld. destruct Hmiss. apply list_elem_of_singleton. auto.
    + split; [|done]. intros _. exists p. split; [done|].
      intros ->. apply Hmiss, list_elem_of_here.
Qed.

(** X15. Requiring two lists of permissions at once is the same as requiring
    each of them: the gate passes on their concatenation exactly when it
    passes on both. *)
Theorem gate_on_concatenation (request : Request) (R1 R2 : list string)
    (current_user : option User) (w : World) :
  (check_request_permissions request (R1 ++ R2) current_user w).1 = Ok ()
  ↔ (check_request_permissions request R1 current_user w).1 = Ok ()
    ∧ (check_request_permissions request R2 current_user w).1 = Ok ().
Proof.
  unfold check_request_permissions. rewrite !bind_eq.
  destruct (fetch_user_permissions _ _ _ w) as [[ups|e] w']; [|by split; [|intros []]].
  rewrite forallb_app.
  destruct (forallb _ R1), (forallb _ R2); cbn [negb andb]; split; try done;
    by intros [??].
Qed.
End special_callers.

(** An unknown server id, asked about by a user. *)
Lemma no_channel_id_never_fails_witness :
  ∃ permissions,
    (fetch_user_permissions (env := granting []) None (Some "s9") (Some "u2")
       owned_server_cold).1 = Ok permissions.
Proof.
  exact (no_channel_id_never_fails (env := granting []) None (Some "s9") (Some "u2")
           owned_server_cold eq_refl eq_refl).
Defined.

(** An anonymous caller on a cached server channel that opens the message
    list to everybody. *)
Lemma anonymous_gets_public_overwrite_only_witness :
  let ch := rec [("kind", "server"); ("server", "s1"); ("section", "");
                 ("permissions",
                  "{" +:+ Json.quoted "@public" +:+ ": ["
                  +:+ Json.quoted "messages.list" +:+ "]}")] in
  ∃ co, channel_overwrites_of (env := granting [("everyone", DEFAULT_ROLE_PERMISSIONS)]) ch
        = Ok co
        ∧ ["messages.list"] = sorted (set_of (default [] (co !! "@public")))
        ∧ ∀ p, p ∈ ["messages.list"] ↔ p ∈ default [] (co !! "@public").
Proof.
  intros ch.
  assert (Hcid : "c1" ≠ "") by discriminate.
  assert (Hne : ch ≠ ∅) by by vm_compute.
  exact (anonymous_gets_public_overwrite_only
           (env := granting [("everyone", DEFAULT_ROLE_PERMISSIONS)]) "c1" None None
           (with_cache [("channel:c1", ch)] owned_server_cold) ch ["messages.list"]
           Hcid eq_refl Hne eq_refl eq_refl).
Defined.

(** The dm channel of the examples, with and without a server id. *)
Lemma caller_server_id_ignored_witness :
  fetch_user_permissions (env := granting []) (Some "0123456789abcdef01234567")
    (Some "s1") (Some "u1") dm_world
  = fetch_user_permissions (env := granting []) (Some "0123456789abcdef01234567")
      None (Some "u1") dm_world.
Proof.
  assert (Hcid : "0123456789abcdef01234567" ≠ "") by discriminate.
  exact (caller_server_id_ignored (env := granting []) "0123456789abcdef01234567"
           (Some "s1") None (Some "u1") dm_world
           (rec [("kind", "dm"); ("members", "u1,u2")]) Hcid eq_refl (or_introl eq_refl)).
Defined.

(** A topic channel record with an owner and no members field, asked about
    by its owner. *)
Lemma topic_without_members_field_witness :
  let ch := rec [("kind", "topic"); ("owner", "u1")] in
  let w := with_cache [("channel:c1", ch)] empty_world in
  fetch_user_permissions (env := granting []) (Some "c1") None (Some "u1") w
  = (Ok CHANNEL_OWNER_PERMISSIONS, w).
Proof.
  intros ch w.
  assert (Hcid : "c1" ≠ "") by discriminate.
  exact (topic_without_members_field (env := granting []) "c1" None (Some "u1") w ch
           Hcid eq_refl eq_refl eq_refl).
Defined.

(** A request for the caller's own profile, with no body. *)
Lemma gate_without_ids_witness :
  let request := {| path := "/users/me"; body := Undecodable |} in
  check_request_permissions (env := granting []) request [Permission.CHANNELS_CREATE] None
    empty_world
  = (Ok (), empty_world).
Proof.
  intros request.
  destruct (gate_without_ids (env := granting []) request [Permission.CHANNELS_CREATE]
              None empty_world eq_refl eq_refl) as [Hpass _].
  apply Hpass. by intros p ->%list_elem_of_singleton.
Defined.

(** ** Server ownership on a cache miss *)

(** X16. Asked with a server id and no channel id, the resolver fetches the
    server record (the snapshot has none) and returns the full catalog to
    the owner of the server. *)
Theorem server_owner_direct (env : Collaborators) (channel_id : option string)
    (S U : string) (w : World) (srv : record) :
  truthy channel_id = false → cached_server w (py_str channel_id) = ∅ →
  S ≠ "" → U ≠ "" → servers w !! S = Some srv → srv !! "owner" = Some U →
  (fetch_user_permissions channel_id (Some S) (Some U) w).1 = Ok SERVER_OWNER_PERMISSIONS
  ∧ ReadServer S ∈ reads (fetch_user_permissions channel_id (Some S) (Some U) w).2.
Proof.
  intros Hcid Hmiss HS HU Hsrv Howner. unfold fetch_user_permissions.
  rewrite Hcid, (truthy_Some S HS). cbn [negb andb].
  rewrite bind_eq, snapshot_eq. cbn beta iota.
  unfold channel_context. rewrite Hcid, bind_eq, ret_eq.
  unfold roles_and_overwrites. rewrite bind_eq, Hmiss.
  rewrite (server_context_on_miss S U _ _ _ srv) by done. simpl.
  split; [done|]. unfold fetch_and_cache_server. simpl. rewrite Hsrv. simpl.
  apply list_elem_of_here.
Qed.

(** The owner u1 of server s1, known to durable storage only. *)
Lemma server_owner_direct_witness :
  (fetch_user_permissions (env := granting []) None (Some "s1") (Some "u1")
     owned_server_cold).1 = Ok SERVER_OWNER_PERMISSIONS
  ∧ ReadServer "s1" ∈ reads (fetch_user_permissions (env := granting []) None (Some "s1")
                               (Some "u1") owned_server_cold).2.
Proof.
  assert (HS : "s1" ≠ "") by discriminate.
  assert (HU : "u1" ≠ "") by discriminate.
  exact (server_owner_direct (granting []) None "s1" "u1" owned_server_cold
           (rec [("owner", "u1"); ("name", "home")]) eq_refl eq_refl HS HU eq_refl eq_refl).
Defined.



(** ** A warm cache *)

Section warm_cache.
Context {env : Collaborators}.

Lemma load_overwrites_no_fetch (cid : option string) (ch section : record) (w : World) :
  nonempty section = true ∨ ch !! "section" = Some "" →
  (load_overwrites cid ch section w).2 = w.
Proof.
  intros Hsection. unfold load_overwrites. rewrite lift_bind_eq.
  destruct (channel_overwrites_of ch) as [co|e]; [|done].
  rewrite bind_eq.
  assert (Hskip : (if negb (nonempty section) && truthy cid
                   then if bool_decide (ch !! "section" ≠ Some "")
                        then fetch_and_cache_section (ch !! "section") (or_empty cid)
                        else mret section
                   else mret section) w = (Ok section, w)).
  { destruct (nonempty section) eqn:Hne; [done|]. cbn [negb andb].
    destruct Hsection as [?|Hdeclared]; [done|].
    rewrite Hdeclared. rewrite bool_decide_eq_false_2 by by intros []. by destruct (truthy cid). }
  rewrite Hskip, lift_bind_eq. by destruct (section_overwrites_of section).
Qed.

(** X18. On a server channel, when the cache snapshot already holds the
    channel record with its kind, the server record, the user's record with
    the roles of that server (or the caller is anonymous), and the section
    record (or the channel declares the empty section), the resolver ends in
    the state it started from: no fetch-and-cache helper is called, so
    durable storage is not read and the cache is not written. *)
Theorem warm_cache_no_durable_access (cid S : string) (sid uid : option string) (w : World) :
  cid ≠ "" →
  cached_channel w cid !! "kind" = Some "server" →
  cached_channel w cid !! "server" = Some S →
  nonempty (cached_server w cid) = true →
  truthy uid = false
  ∨ (nonempty (cached_user w (or_empty uid)) = true
     ∧ truthy (cached_user w (or_empty uid) !! (S +:+ ".roles")) = true) →
  nonempty (cached_section w cid) = true ∨ cached_channel w cid !! "section" = Some "" →
  (fetch_user_permissions (Some cid) sid uid w).2 = w.
Proof.
  intros Hcid Hkind Hserver Hsrv Huser Hsection.
  assert (Hne : cached_channel w cid ≠ ∅) by by eapply kind_nonempty.
  assert (Hreload : reload_needed w cid = false).
  { unfold reload_needed, nonempty. rewrite Hkind.
    by rewrite !bool_decide_eq_false_2. }
  assert (Hch : channel_in_use w cid = Some (cached_channel w cid)).
  { unfold channel_in_use. by rewrite Hreload. }
  rewrite (fetch_user_permissions_on_channel cid sid uid w _ Hcid Hch Hne).
  unfold after_load. rewrite Hreload, bind_eq.
  unfold by_kind. rewrite Hkind. rewrite !bool_decide_eq_false_2 by done.
  rewrite bool_decide_eq_true_2 by done. rewrite ret_eq, Hserver.
  unfold roles_and_overwrites, server_context. rewrite Hsrv, andb_false_r.
  rewrite !bind_eq.
  assert (Hroles : ∃ user_roles,
             roles_in_server (Some S) uid (cached_user w (or_empty uid))
               (cached_server w cid) [] w = (Ok user_roles, w)).
  { unfold roles_in_server. rewrite Hsrv. cbn [andb].
    destruct (truthy uid) eqn:Hu; [|by eexists].
    destruct Huser as [?|[Huser Hroles]]; [done|].
    simpl py_str. rewrite Huser, Hroles. by eexists. }
  destruct Hroles as [user_roles ->]. rewrite ret_eq.
  pose proof (load_overwrites_no_fetch (Some cid) (cached_channel w cid)
                (cached_section w cid) w Hsection) as Hload.
  rewrite bind_eq.
  destruct (load_overwrites _ _ _ w) as [[[so co]|e] w1]; simpl in Hload; by subst w1.
Qed.
End warm_cache.

(** Channel c1 and server s1 cached, asked about by an anonymous caller. *)
Lemma warm_cache_no_durable_access_witness :
  (fetch_user_permissions (env := granting []) (Some "c1") None None owned_server_warm).2
  = owned_server_warm.
Proof.
  assert (Hcid : "c1" ≠ "") by discriminate.
  exact (warm_cache_no_durable_access (env := granting []) "c1" "s1" None None
           owned_server_warm Hcid eq_refl eq_refl eq_refl (or_introl eq_refl)
           (or_intror eq_refl)).
Defined.
